(** * voice_changer: a shallow embedding of [voice_changer.py]

    The effects of [voice_changer.py] work on numpy arrays of samples.  The
    embedding keeps what the Python code has:

    - a numpy array is an object in a store; an [ndarray] value is a
      reference to it (a base array and, for [a[::-1]], a reversed view of
      that same base), so that in-place updates ([*=], [+=], [a[i] = v]) and
      aliasing are visible;
    - a Python exception is a [Raise] result of the state-and-error monad [M];
    - numpy's global random generator is a component of the state;
    - librosa, scipy, [np.sin], [np.pi] and [np.random.normal] are not code of
      this repository: they are the fields of the class [NumericLibs].

    Python floats and numpy samples are modelled as exact rationals [Q]: a
    float literal of the source is the decimal it is written as, and
    arithmetic is taken exact (no rounding error, no inf, no nan; the one
    place where the code can meet a nan, a division by a zero sample rate,
    is written out).  Where a statement depends on the value of a float
    expression (the number of delay samples [int(sr * delay_time)]), it is
    stated over that value. *)

From Stdlib Require Import QArith Qabs Qminmax ZArith Lia Lqa.
From stdpp Require Import base list.

(** ** Python values *)

Inductive exn := IndexError | ValueError | LibraryError.

Inductive result (A : Type) :=
  | Ok (a : A)
  | Raise (e : exn).
Arguments Ok {A} a.
Arguments Raise {A} e.

#[global] Instance result_ret : MRet result := @Ok.
#[global] Instance result_bind : MBind result := fun A B k r =>
  match r with Ok x => k x | Raise e => Raise e end.

#[global] Instance exn_eq_dec : EqDecision exn.
Proof. solve_decision. Defined.

#[global] Instance Q_inhabited : Inhabited Q := populate 0%Q.

(** [int(x)] on a float: truncation toward zero. *)
Definition py_int (x : Q) : Z := Z.quot (Qnum x) (Zpos (Qden x)).

(** [round(x)] on a float: to the nearest integer, ties to the even one.
    The source never calls it; the specification does. *)
Definition py_round (x : Q) : Z :=
  let fl := (Qnum x / Zpos (Qden x))%Z in
  let twice_frac := (2 * (Qnum x - fl * Zpos (Qden x)))%Z in
  match (twice_frac ?= Zpos (Qden x))%Z with
  | Lt => fl
  | Gt => (fl + 1)%Z
  | Eq => if Z.even fl then fl else (fl + 1)%Z
  end.

(** [range(a, b)] and [range(a, b, step)] as the list of values they yield;
    [range] with a zero step raises [ValueError]. *)
Definition py_range (a b : Z) : list Z :=
  map (fun k : nat => (a + Z.of_nat k)%Z) (seq 0 (Z.to_nat (b - a))).

Definition py_range_step (a b step : Z) : result (list Z) :=
  if (step =? 0)%Z then Raise ValueError
  else if (0 <? step)%Z then
    Ok (map (fun k : nat => (a + Z.of_nat k * step)%Z)
            (seq 0 (Z.to_nat ((b - a + step - 1) / step))))
  else
    Ok (map (fun k : nat => (a + Z.of_nat k * step)%Z)
            (seq 0 (Z.to_nat ((a - b - step - 1) / (- step))))).

(** An index [i] into a sequence of length [n]: a negative index counts from
    the end, anything outside [-n, n) is out of range. *)
Definition norm_index (n : nat) (i : Z) : option nat :=
  if ((0 <=? i) && (i <? Z.of_nat n))%Z then Some (Z.to_nat i)
  else if ((- Z.of_nat n <=? i) && (i <? 0))%Z then Some (Z.to_nat (i + Z.of_nat n))
  else None.

(** A bound of a slice [l[start:stop]]: negative bounds count from the end,
    and every bound is clamped into [0, n]. *)
Definition clamp_bound (n : nat) (i : Z) : nat :=
  if (i <? 0)%Z then Z.to_nat (Z.max 0 (i + Z.of_nat n))
  else Nat.min n (Z.to_nat i).

(** The bounds of [l[start:stop]] on a sequence of length [n]; an omitted
    bound is [None]. *)
Definition slice_start (n : nat) (start : option Z) : nat :=
  match start with Some i => clamp_bound n i | None => 0%nat end.

Definition slice_stop (n : nat) (stop : option Z) : nat :=
  match stop with Some i => clamp_bound n i | None => n end.

Definition py_slice {A} (l : list A) (start stop : option Z) : list A :=
  let s := slice_start (length l) start in
  let e := slice_stop (length l) stop in
  take (e - s) (drop s l).

(** [np.clip(x, lo, hi)] is [minimum(maximum(x, lo), hi)]. *)
Definition np_clip1 (lo hi x : Q) : Q := Qmin (Qmax x lo) hi.

(** [np.linspace(start, stop, num)]: numpy computes [arange(num) * step + start]
    with [step = (stop - start) / (num - 1)] and then sets the last point to
    [stop]; one point gives [start]. *)
Definition np_linspace (start stop : Q) (num : nat) : list Q :=
  match num with
  | 0%nat => []
  | 1%nat => [start]
  | _ => <[(num - 1)%nat := stop]>
           (map (fun k : nat =>
                   (inject_Z (Z.of_nat k)
                    * ((stop - start) / inject_Z (Z.of_nat (num - 1)))
                    + start)%Q)
                (seq 0 num))
  end.

(** ** The libraries the code calls *)

Class NumericLibs := {
  (** state of numpy's global random generator *)
  rng_state : Type;
  (** [np.random.normal(loc, scale, size)]: the samples and the next state *)
  np_random_normal : Q -> Q -> nat -> rng_state -> list Q * rng_state;
  np_sin : Q -> Q;
  np_pi : Q;
  (** [librosa.effects.pitch_shift(y, sr=sr, n_steps=n)] *)
  librosa_pitch_shift : list Q -> Z -> Q -> result (list Q);
  (** [librosa.effects.time_stretch(y, rate=rate)] *)
  librosa_time_stretch : list Q -> Q -> result (list Q);
  (** [librosa.effects.preemphasis(y)] *)
  librosa_preemphasis : list Q -> result (list Q);
  (** [scipy.signal.butter(order, [low, high], btype='band', fs=sr, output='sos')] *)
  sos : Type;
  scipy_butter : Z -> Q -> Q -> Z -> result sos;
  (** [scipy.signal.sosfilt(sos, x)] *)
  scipy_sosfilt : sos -> list Q -> result (list Q)
}.

Section VoiceChanger.
Context `{NumericLibs}.

(** ** The store of numpy arrays *)

(** An array object: the index of its base array in the store, and whether
    it is the reversed view [base[::-1]]. *)
Record ndarray := NdArray { base : nat; rev : bool }.

Record world := World { heap : list (list Q); rng : rng_state }.

Definition view (r : bool) (l : list Q) : list Q := if r then reverse l else l.

(** The samples seen through an array object. *)
Definition buf (w : world) (a : ndarray) : list Q :=
  view (rev a) (heap w !!! base a).

Definition set_buf (w : world) (a : ndarray) (l : list Q) : world :=
  World (<[base a := view (rev a) l]> (heap w)) (rng w).

Definition valid (w : world) (a : ndarray) : Prop := (base a < length (heap w))%nat.

(** ** The monad: state passing with exceptions *)

Definition M (A : Type) : Type := world -> result (A * world).

Definition ret {A} (x : A) : M A := fun w => Ok (x, w).

Definition raise {A} (e : exn) : M A := fun _ => Raise e.

Definition bind {A B} (m : M A) (k : A -> M B) : M B :=
  fun w => match m w with
           | Ok (x, w') => k x w'
           | Raise e => Raise e
           end.

Definition lift {A} (r : result A) : M A :=
  fun w => match r with Ok x => Ok (x, w) | Raise e => Raise e end.

#[global] Instance M_ret : MRet M := @ret.
#[global] Instance M_bind : MBind M := fun A B k m => bind m k.

(** [for i in l: body(i)], and the same loop around a local Python value
    [acc] that the body rebinds or extends. *)
Fixpoint for_ (l : list Z) (body : Z -> M unit) : M unit :=
  match l with
  | [] => ret tt
  | i :: l' => body i ;; for_ l' body
  end.

Fixpoint for_acc {A} (l : list Z) (acc : A) (body : Z -> A -> M A) : M A :=
  match l with
  | [] => ret acc
  | i :: l' => acc' ← body i acc ; for_acc l' acc' body
  end.

(** ** numpy operations *)

(** A new array object with the given samples: the next free place of the
    store. *)
Definition alloc (w : world) (l : list Q) : world := World (heap w ++ [l]) (rng w).
Definition fresh (w : world) : ndarray := NdArray (length (heap w)) false.

Definition np_array (l : list Q) : M ndarray :=
  fun w => Ok (fresh w, alloc w l).

Definition len (a : ndarray) : M Z :=
  fun w => Ok (Z.of_nat (length (buf w a)), w).

(** [a[i]] *)
Definition getitem (a : ndarray) (i : Z) : M Q :=
  fun w => match norm_index (length (buf w a)) i with
           | Some k => Ok (buf w a !!! k, w)
           | None => Raise IndexError
           end.

(** [a[i] = v] *)
Definition setitem (a : ndarray) (i : Z) (v : Q) : M unit :=
  fun w => match norm_index (length (buf w a)) i with
           | Some k => Ok (tt, set_buf w a (<[k := v]> (buf w a)))
           | None => Raise IndexError
           end.

(** [np.zeros_like(a)] *)
Definition np_zeros_like (a : ndarray) : M ndarray :=
  fun w => np_array (replicate (length (buf w a)) 0%Q) w.

(** [np.copy(a)] *)
Definition np_copy (a : ndarray) : M ndarray :=
  fun w => np_array (buf w a) w.

(** [a[::-1]]: a view of the same base, no copy. *)
Definition np_flip (a : ndarray) : ndarray := NdArray (base a) (negb (rev a)).

(** [a * c] with a scalar [c]: a new array. *)
Definition np_mul_scalar (a : ndarray) (c : Q) : M ndarray :=
  fun w => np_array (map (fun x => (x * c)%Q) (buf w a)) w.

(** [a *= c] with a scalar [c]: in place. *)
Definition np_imul_scalar (a : ndarray) (c : Q) : M unit :=
  fun w => Ok (tt, set_buf w a (map (fun x => (x * c)%Q) (buf w a))).

(** [c * a] with a scalar [c]: a new array. *)
Definition np_scalar_mul (c : Q) (a : ndarray) : M ndarray :=
  fun w => np_array (map (fun x => (c * x)%Q) (buf w a)) w.

(** Broadcasting two one-dimensional operands against each other. *)
Definition broadcast2 (l r : list Q) : result (list Q * list Q) :=
  if (length l =? length r)%nat then Ok (l, r)
  else match l, r with
       | [x], _ => Ok (replicate (length r) x, r)
       | _, [y] => Ok (l, replicate (length l) y)
       | _, _ => Raise ValueError
       end.

Definition add_samples (l r : list Q) : result (list Q) :=
  '(l', r') ← broadcast2 l r ; Ok (zip_with Qplus l' r').

(** [a + b]: a new array. *)
Definition np_add (a b : ndarray) : M ndarray :=
  fun w => match add_samples (buf w a) (buf w b) with
           | Ok l => np_array l w
           | Raise e => Raise e
           end.

(** [np.linspace(start, stop, num)] as a new array; a negative [num] is a
    [ValueError]. *)
Definition linspace_samples (start stop : Q) (num : Z) : result (list Q) :=
  if (num <? 0)%Z then Raise ValueError
  else Ok (np_linspace start stop (Z.to_nat num)).

Definition np_linspace_ (start stop : Q) (num : Z) : M ndarray :=
  fun w => match linspace_samples start stop num with
           | Ok l => np_array l w
           | Raise e => Raise e
           end.

(** [np.clip(a, lo, hi)]: a new array. *)
Definition np_clip (a : ndarray) (lo hi : Q) : M ndarray :=
  fun w => np_array (map (np_clip1 lo hi) (buf w a)) w.

(** Broadcasting the right operand [r] of an in-place operation onto a left
    operand of [n] samples: equal lengths, or a single sample repeated;
    anything else is numpy's broadcast [ValueError]. *)
Definition broadcast_to (n : nat) (r : list Q) : result (list Q) :=
  if (length r =? n)%nat then Ok r
  else match r with
       | [x] => Ok (replicate n x)
       | _ => Raise ValueError
       end.

(** The samples of [a] after [a += b]. *)
Definition iadd_samples (l r : list Q) : result (list Q) :=
  r' ← broadcast_to (length l) r ; Ok (zip_with Qplus l r').

(** The samples of [a] after [a[start:stop] *= r]. *)
Definition imul_slice_samples (l : list Q) (start stop : option Z) (r : list Q)
  : result (list Q) :=
  let s := slice_start (length l) start in
  let e := slice_stop (length l) stop in
  r' ← broadcast_to (e - s) r ;
  Ok (take s l ++ zip_with Qmult (take (e - s) (drop s l)) r' ++ drop (s + (e - s)) l).

(** An in-place operation on [a]: it raises, or [a] has new samples. *)
Definition update_array (a : ndarray) (r : result (list Q)) : M unit :=
  fun w => match r with
           | Ok l => Ok (tt, set_buf w a l)
           | Raise e => Raise e
           end.

(** [a += b], in place. *)
Definition np_iadd (a b : ndarray) : M unit :=
  fun w => update_array a (iadd_samples (buf w a) (buf w b)) w.

(** [a[start:stop] *= r] with an array [r], in place in [a]. *)
Definition np_imul_slice (a : ndarray) (start stop : option Z) (r : ndarray) : M unit :=
  fun w => update_array a (imul_slice_samples (buf w a) start stop (buf w r)) w.

(** [a[start:stop]], read out (the code only iterates over such slices). *)
Definition getslice (a : ndarray) (start stop : option Z) : M (list Q) :=
  fun w => Ok (py_slice (buf w a) start stop, w).

Definition set_rng (w : world) (g : rng_state) : world := World (heap w) g.

(** [np.random.normal(loc, scale, n)]: a new array, and the generator moves on. *)
Definition np_random_normal_ (loc scale : Q) (n : nat) : M ndarray :=
  fun w => let noise := np_random_normal loc scale n (rng w) in
           np_array noise.1 (set_rng w noise.2).

(** A library call on the samples of [a] that returns a new array. *)
Definition library_call (f : list Q -> result (list Q)) (a : ndarray) : M ndarray :=
  fun w => match f (buf w a) with
           | Ok l => np_array l w
           | Raise e => Raise e
           end.

(** ** The effects of [voice_changer.py] *)

(** The number of delay samples, [int(sr * delay_time)]. *)
Definition delay_samples (sr : Z) (delay_time : Q) : Z :=
  py_int (inject_Z sr * delay_time).

(** Defaults of the source: [delay_time=0.1], [feedback=0.4]. *)
Definition apply_delay (audio_data : ndarray) (sr : Z) (delay_time feedback : Q)
  : M ndarray :=
  let delay_samples := py_int (inject_Z sr * delay_time) in
  delayed_audio ← np_zeros_like audio_data ;
  n ← len audio_data ;
  for_ (py_range delay_samples n) (fun i =>
    x ← getitem audio_data i ;
    y ← getitem delayed_audio (i - delay_samples) ;
    setitem delayed_audio i (x + feedback * y)%Q) ;;
  ret delayed_audio.

(** The modulator of the chorus,
    [np.sin(2 * np.pi * rate * np.arange(n) / sr)] scaled in place by
    [depth * sr], at index [i].  The array is local to the call; with
    [sr = 0] every entry is a nan ([None]). *)
Definition chorus_modulator (sr : Z) (depth rate : Q) (i : Z) : option Q :=
  if (sr =? 0)%Z then None
  else Some (np_sin (2 * np_pi * rate * inject_Z i / inject_Z sr)
             * (depth * inject_Z sr))%Q.

(** Defaults of the source: [depth=0.03], [delay=0.004], [rate=1.3];
    [delay] is never used by it. *)
Definition apply_chorus (audio_data : ndarray) (sr : Z) (depth delay rate : Q)
  : M ndarray :=
  n ← len audio_data ;
  let modulator := chorus_modulator sr depth rate in
  chorus_audio ← np_copy audio_data ;
  for_ (py_range 0 n) (fun i =>
    match modulator i with
    | None => raise ValueError   (* [int(nan)] *)
    | Some m =>
        let delay_index := py_int (inject_Z i - m) in
        if ((0 <=? delay_index) && (delay_index <? n))%Z then
          x ← getitem chorus_audio i ;
          y ← getitem audio_data delay_index ;
          setitem chorus_audio i (x + y)%Q
        else ret tt
    end) ;;
  ret chorus_audio.

Definition pitch_shift (audio_data : ndarray) (sr : Z) (semitone_shift : Q) : M ndarray :=
  library_call (fun y => librosa_pitch_shift y sr semitone_shift) audio_data.

Definition increase_volume (audio_data : ndarray) (volume_factor : Q) : M ndarray :=
  np_imul_scalar audio_data volume_factor ;;
  ret audio_data.

Definition change_speed (audio_data : ndarray) (rate : Q) : M ndarray :=
  library_call (fun y => librosa_time_stretch y rate) audio_data.

(** Defaults of the source: [delay_factor=0.5], [decay=0.5]. *)
Definition apply_echo (audio_data : ndarray) (sr : Z) (delay_factor decay : Q)
  : M ndarray :=
  echo_audio ← np_copy audio_data ;
  let delay_samples := py_int (inject_Z sr * delay_factor) in
  n ← len audio_data ;
  for_ (py_range delay_samples n) (fun i =>
    x ← getitem echo_audio i ;
    y ← getitem audio_data (i - delay_samples) ;
    setitem echo_audio i (x + decay * y)%Q) ;;
  ret echo_audio.

(** Default of the source: [reverb_amount=0.7]; [sr] is not used. *)
Definition apply_reverb (audio_data : ndarray) (sr : Z) (reverb_amount : Q)
  : M ndarray :=
  reverb_data ← library_call librosa_preemphasis audio_data ;
  scaled ← np_mul_scalar reverb_data reverb_amount ;
  np_clip scaled (-1) 1.

Definition apply_girl_voice (audio_data : ndarray) (sr : Z) : M ndarray :=
  girl_voice ← library_call (fun y => librosa_pitch_shift y sr 12) audio_data ;
  girl_voice ← library_call (fun y => librosa_time_stretch y 1.2) girl_voice ;
  let fade_length := py_int (0.03 * inject_Z sr) in
  fade_in ← np_linspace_ 0 1 fade_length ;
  fade_out ← np_linspace_ 1 0 fade_length ;
  np_imul_slice girl_voice None (Some fade_length) fade_in ;;
  np_imul_slice girl_voice (Some (- fade_length)%Z) None fade_out ;;
  ret girl_voice.

Definition apply_reversed_voice (audio_data : ndarray) : M ndarray :=
  ret (np_flip audio_data).

Definition apply_distorted_voice (audio_data : ndarray) : M ndarray :=
  scaled ← np_mul_scalar audio_data 10 ;
  np_clip scaled (-1) 1.

Definition apply_telephone_voice (audio_data : ndarray) (sr : Z) : M ndarray :=
  let lowcut := 300%Q in
  let highcut := 3400%Q in
  sos ← lift (scipy_butter 10 lowcut highcut sr) ;
  library_call (scipy_sosfilt sos) audio_data.

Definition apply_haunted_voice (audio_data : ndarray) (sr : Z) : M ndarray :=
  haunted_voice ← apply_reverb audio_data sr 0.9 ;
  apply_echo haunted_voice sr 0.3 0.8.

Definition apply_whisper_voice (audio_data : ndarray) : M ndarray :=
  whisper_audio ← np_mul_scalar audio_data 0.2 ;
  n ← len audio_data ;
  noise ← np_random_normal_ 0 0.02 (Z.to_nat n) ;
  np_iadd whisper_audio noise ;;
  ret whisper_audio.

Definition apply_radio_voice (audio_data : ndarray) (sr : Z) : M ndarray :=
  let lowcut := 300%Q in
  let highcut := 3000%Q in
  sos ← lift (scipy_butter 10 lowcut highcut sr) ;
  radio_voice ← library_call (scipy_sosfilt sos) audio_data ;
  n ← len audio_data ;
  noise ← np_random_normal_ 0 0.01 (Z.to_nat n) ;
  np_iadd radio_voice noise ;;
  ret radio_voice.

(** Defaults of the source: [delay_factor=0.7], [decay=0.7]. *)
Definition apply_strong_echo (audio_data : ndarray) (sr : Z) (delay_factor decay : Q)
  : M ndarray :=
  echo_audio ← np_copy audio_data ;
  let delay_samples := py_int (inject_Z sr * delay_factor) in
  n ← len audio_data ;
  for_ (py_range delay_samples n) (fun i =>
    x ← getitem echo_audio i ;
    y ← getitem audio_data (i - delay_samples) ;
    setitem echo_audio i (x + decay * y)%Q) ;;
  ret echo_audio.

(** Default of the source: [stutter_factor=0.1].  [stuttering_voice] is a
    Python list, local to the call, that the loop extends. *)
Definition apply_stuttering_voice (audio_data : ndarray) (sr : Z) (stutter_factor : Q)
  : M ndarray :=
  let segment_length := py_int (inject_Z sr * stutter_factor) in
  n ← len audio_data ;
  starts ← lift (py_range_step 0 n segment_length) ;
  stuttering_voice ← for_acc starts [] (fun i stuttering_voice =>
    s1 ← getslice audio_data (Some i) (Some (i + segment_length)%Z) ;
    s2 ← getslice audio_data (Some i)
           (Some (i + py_int (inject_Z segment_length / 2))%Z) ;
    ret (stuttering_voice ++ s1 ++ s2)) ;
  np_array stuttering_voice.

Definition apply_digital_glitch_voice (audio_data : ndarray) (sr : Z) : M ndarray :=
  let glitch_factor := 0.05%Q in
  n ← len audio_data ;
  noise ← np_random_normal_ 0 1 (Z.to_nat n) ;
  scaled ← np_scalar_mul glitch_factor noise ;
  np_add audio_data scaled.

Definition apply_mystical_voice (audio_data : ndarray) (sr : Z) : M ndarray :=
  mystical_voice ← pitch_shift audio_data sr 3 ;
  mystical_voice ← apply_chorus mystical_voice sr 0.02 0.003 1.2 ;
  apply_delay mystical_voice sr 0.05 0.3.

Definition apply_transcendent_voice (audio_data : ndarray) (sr : Z) : M ndarray :=
  transcendent_voice ← pitch_shift audio_data sr 6 ;
  transcendent_voice ← apply_reversed_voice transcendent_voice ;
  apply_delay transcendent_voice sr 0.1 0.5.

End VoiceChanger.


(** ** What the loops compute, on plain lists

    The loops of the source update an array in place, index by index.  The
    functions below are the same updates on a list; the theorems relate each
    effect, run on the store, to them. *)

Section Lists.
Context `{NumericLibs}.

(** One round of the loop of [apply_delay], with [d >= 0] delay samples. *)
Definition delay_step (d : nat) (f : Q) (b out : list Q) (i : nat) : list Q :=
  <[i := (b !!! i + f * out !!! (i - d)%nat)%Q]> out.

Definition delay_line (d : nat) (f : Q) (b : list Q) : list Q :=
  foldl (delay_step d f b) (replicate (length b) 0%Q) (seq d (length b - d)).

(** A round that rewrites sample [i] from its own value: the shape of the
    rounds of the echoes and of the chorus. *)
Definition pointwise_step (g : nat -> Q -> Q) (out : list Q) (i : nat) : list Q :=
  <[i := g i (out !!! i)]> out.

(** One round of the loop of [apply_echo] and [apply_strong_echo]. *)
Definition echo_step (d : nat) (decay : Q) (b out : list Q) (i : nat) : list Q :=
  <[i := (out !!! i + decay * b !!! (i - d)%nat)%Q]> out.

Definition echo_line (d : nat) (decay : Q) (b : list Q) : list Q :=
  foldl (echo_step d decay b) b (seq d (length b - d)).

(** The read offset of the chorus at index [i], when the modulator is a
    number: [int(i - modulator[i])]. *)
Definition chorus_delay_index (sr : Z) (depth rate : Q) (i : Z) : option Z :=
  m ← chorus_modulator sr depth rate i ; Some (py_int (inject_Z i - m)).

(** One round of the loop of [apply_chorus] (with a modulator free of nan). *)
Definition chorus_step (sr : Z) (depth rate : Q) (b out : list Q) (i : nat) : list Q :=
  match chorus_delay_index sr depth rate (Z.of_nat i) with
  | Some delay_index =>
      if ((0 <=? delay_index) && (delay_index <? Z.of_nat (length b)))%Z
      then <[i := (out !!! i + b !!! Z.to_nat delay_index)%Q]> out
      else out
  | None => out
  end.

Definition chorus_line (sr : Z) (depth rate : Q) (b : list Q) : list Q :=
  foldl (chorus_step sr depth rate b) b (seq 0 (length b)).

End Lists.

(** ** What each effect returns, as a function of the samples

    For every effect, the samples of the array it returns (or the exception
    it raises) as a function of the input samples, and for the effects that
    draw noise, of the state of the generator.  The section on the effects
    proves that the effects, run on the store, compute these functions. *)

Section Results.
Context `{NumericLibs}.

Definition delay_result (sr : Z) (delay_time feedback : Q) (b : list Q)
  : result (list Q) :=
  if (delay_samples sr delay_time <? 0)%Z then Raise IndexError
  else Ok (delay_line (Z.to_nat (delay_samples sr delay_time)) feedback b).

Definition echo_result (sr : Z) (delay_factor decay : Q) (b : list Q)
  : result (list Q) :=
  if (delay_samples sr delay_factor <? 0)%Z then Raise IndexError
  else Ok (echo_line (Z.to_nat (delay_samples sr delay_factor)) decay b).

Definition chorus_result (sr : Z) (depth rate : Q) (b : list Q) : result (list Q) :=
  if ((sr =? 0)%Z && negb (length b =? 0)%nat) then Raise ValueError
  else Ok (chorus_line sr depth rate b).

Definition reverb_result (reverb_amount : Q) (b : list Q) : result (list Q) :=
  l ← librosa_preemphasis b ;
  Ok (map (np_clip1 (-1) 1) (map (fun x => (x * reverb_amount)%Q) l)).

Definition girl_voice_result (sr : Z) (b : list Q) : result (list Q) :=
  l1 ← librosa_pitch_shift b sr 12 ;
  l2 ← librosa_time_stretch l1 1.2 ;
  let fade_length := py_int (0.03 * inject_Z sr) in
  fade_in ← linspace_samples 0 1 fade_length ;
  fade_out ← linspace_samples 1 0 fade_length ;
  l3 ← imul_slice_samples l2 None (Some fade_length) fade_in ;
  imul_slice_samples l3 (Some (- fade_length)%Z) None fade_out.

Definition distorted_result (b : list Q) : list Q :=
  map (np_clip1 (-1) 1) (map (fun x => (x * 10)%Q) b).

Definition telephone_result (sr : Z) (b : list Q) : result (list Q) :=
  s ← scipy_butter 10 300 3400 sr ; scipy_sosfilt s b.

Definition haunted_result (sr : Z) (b : list Q) : result (list Q) :=
  l ← reverb_result 0.9 b ; echo_result sr 0.3 0.8 l.

Definition whisper_result (b : list Q) (g : rng_state)
  : result (list Q * rng_state) :=
  let noise := np_random_normal 0 0.02 (length b) g in
  out ← iadd_samples (map (fun x => (x * 0.2)%Q) b) noise.1 ; Ok (out, noise.2).

Definition radio_result (sr : Z) (b : list Q) (g : rng_state)
  : result (list Q * rng_state) :=
  s ← scipy_butter 10 300 3000 sr ;
  l ← scipy_sosfilt s b ;
  let noise := np_random_normal 0 0.01 (length b) g in
  out ← iadd_samples l noise.1 ; Ok (out, noise.2).

(** The segments of the stutter, in the order of the loop: the slice that
    starts at [i] and its first half. *)
Definition stutter_piece (segment_length : Z) (b : list Q) (i : Z) : list Q :=
  py_slice b (Some i) (Some (i + segment_length)%Z)
  ++ py_slice b (Some i) (Some (i + py_int (inject_Z segment_length / 2))%Z).

Definition stutter_result (sr : Z) (stutter_factor : Q) (b : list Q)
  : result (list Q) :=
  let segment_length := py_int (inject_Z sr * stutter_factor) in
  starts ← py_range_step 0 (Z.of_nat (length b)) segment_length ;
  Ok (foldl (fun acc i => acc ++ stutter_piece segment_length b i) [] starts).

Definition glitch_result (b : list Q) (g : rng_state)
  : result (list Q * rng_state) :=
  let noise := np_random_normal 0 1 (length b) g in
  out ← add_samples b (map (fun x => (0.05 * x)%Q) noise.1) ; Ok (out, noise.2).

Definition mystical_result (sr : Z) (b : list Q) : result (list Q) :=
  l ← librosa_pitch_shift b sr 3 ;
  l ← chorus_result sr 0.02 1.2 l ;
  delay_result sr 0.05 0.3 l.

Definition transcendent_result (sr : Z) (b : list Q) : result (list Q) :=
  l ← librosa_pitch_shift b sr 6 ;
  delay_result sr 0.1 0.5 (reverse l).

(** The world [w] after some allocations: the arrays [ls] follow those of
    [w], and the generator is in state [g]; [new w k r] is the [k]-th of the
    new arrays, seen through the view [r]. *)
Definition ext (w : world) (ls : list (list Q)) (g : rng_state) : world :=
  World (heap w ++ ls) g.

Definition new (w : world) (k : nat) (r : bool) : ndarray :=
  NdArray (length (heap w) + k) r.

(** An effect that draws no noise leaves the generator where it was. *)
Definition keeps_rng (r : result (list Q)) (g : rng_state)
  : result (list Q * rng_state) :=
  l ← r ; Ok (l, g).

(** [r] is the run of an effect from the world [w]; [F] is its result on
    samples.  [yields]: the effect raises what [F] raises, or returns an
    array with the samples and the generator state of [F].  [yields_new]:
    moreover every array of [w] is as it was and the array returned is a
    new one. *)
Definition yields (r : result (ndarray * world)) (F : result (list Q * rng_state))
  : Prop :=
  match F with
  | Ok (out, g) =>
      exists o w', r = Ok (o, w') /\ valid w' o /\ buf w' o = out /\ rng w' = g
  | Raise e => r = Raise e
  end.

Definition yields_new (r : result (ndarray * world)) (w : world)
    (F : result (list Q * rng_state)) : Prop :=
  match F with
  | Ok (out, g) =>
      exists o w', r = Ok (o, w') /\ valid w' o /\ buf w' o = out /\ rng w' = g
                   /\ heap w `prefix_of` heap w' /\ (length (heap w) <= base o)%nat
  | Raise e => r = Raise e
  end.

(** ** The catalogue of the effects

    The effects take an array and, most of them, the sample rate; the
    catalogue names each with its other parameters, so that a statement can
    range over all of them.  It holds the effects above; the flanger and
    the further chains of pitch shift, time stretch, clipping, filter, echo
    and reverb follow, with a catalogue of their own. *)

Inductive effect :=
  | Delay (delay_time feedback : Q)
  | Chorus (depth delay rate : Q)
  | PitchShift (semitone_shift : Q)
  | IncreaseVolume (volume_factor : Q)
  | ChangeSpeed (rate : Q)
  | Echo (delay_factor decay : Q)
  | Reverb (reverb_amount : Q)
  | GirlVoice
  | ReversedVoice
  | DistortedVoice
  | TelephoneVoice
  | HauntedVoice
  | WhisperVoice
  | RadioVoice
  | StrongEcho (delay_factor decay : Q)
  | StutteringVoice (stutter_factor : Q)
  | DigitalGlitchVoice
  | MysticalVoice
  | TranscendentVoice.

Definition run_effect (e : effect) (audio_data : ndarray) (sr : Z) : M ndarray :=
  match e with
  | Delay delay_time feedback => apply_delay audio_data sr delay_time feedback
  | Chorus depth delay rate => apply_chorus audio_data sr depth delay rate
  | PitchShift semitone_shift => pitch_shift audio_data sr semitone_shift
  | IncreaseVolume volume_factor => increase_volume audio_data volume_factor
  | ChangeSpeed rate => change_speed audio_data rate
  | Echo delay_factor decay => apply_echo audio_data sr delay_factor decay
  | Reverb reverb_amount => apply_reverb audio_data sr reverb_amount
  | GirlVoice => apply_girl_voice audio_data sr
  | ReversedVoice => apply_reversed_voice audio_data
  | DistortedVoice => apply_distorted_voice audio_data
  | TelephoneVoice => apply_telephone_voice audio_data sr
  | HauntedVoice => apply_haunted_voice audio_data sr
  | WhisperVoice => apply_whisper_voice audio_data
  | RadioVoice => apply_radio_voice audio_data sr
  | StrongEcho delay_factor decay => apply_strong_echo audio_data sr delay_factor decay
  | StutteringVoice stutter_factor => apply_stuttering_voice audio_data sr stutter_factor
  | DigitalGlitchVoice => apply_digital_glitch_voice audio_data sr
  | MysticalVoice => apply_mystical_voice audio_data sr
  | TranscendentVoice => apply_transcendent_voice audio_data sr
  end.

(** The effects that call [np.random.normal]. *)
Definition draws_noise (e : effect) : bool :=
  match e with
  | WhisperVoice | RadioVoice | DigitalGlitchVoice => true
  | _ => false
  end.

(** The effects that return a new array and leave the old ones alone: all
    but [increase_volume], which scales its input in place and returns it,
    and [apply_reversed_voice], which returns a view of its input. *)
Definition returns_new_array (e : effect) : bool :=
  match e with
  | IncreaseVolume _ | ReversedVoice => false
  | _ => true
  end.

Definition effect_result (e : effect) (sr : Z) (b : list Q) (g : rng_state)
  : result (list Q * rng_state) :=
  match e with
  | Delay delay_time feedback => keeps_rng (delay_result sr delay_time feedback b) g
  | Chorus depth delay rate => keeps_rng (chorus_result sr depth rate b) g
  | PitchShift semitone_shift => keeps_rng (librosa_pitch_shift b sr semitone_shift) g
  | IncreaseVolume volume_factor =>
      Ok (map (fun x => (x * volume_factor)%Q) b, g)
  | ChangeSpeed rate => keeps_rng (librosa_time_stretch b rate) g
  | Echo delay_factor decay => keeps_rng (echo_result sr delay_factor decay b) g
  | Reverb reverb_amount => keeps_rng (reverb_result reverb_amount b) g
  | GirlVoice => keeps_rng (girl_voice_result sr b) g
  | ReversedVoice => Ok (reverse b, g)
  | DistortedVoice => Ok (distorted_result b, g)
  | TelephoneVoice => keeps_rng (telephone_result sr b) g
  | HauntedVoice => keeps_rng (haunted_result sr b) g
  | WhisperVoice => whisper_result b g
  | RadioVoice => radio_result sr b g
  | StrongEcho delay_factor decay => keeps_rng (echo_result sr delay_factor decay b) g
  | StutteringVoice stutter_factor => keeps_rng (stutter_result sr stutter_factor b) g
  | DigitalGlitchVoice => glitch_result b g
  | MysticalVoice => keeps_rng (mystical_result sr b) g
  | TranscendentVoice => keeps_rng (transcendent_result sr b) g
  end.

(** Two runs agree: both raise the same exception, or both return arrays
    with the same samples. *)
Definition same_outcome (r r' : result (ndarray * world)) : Prop :=
  match r, r' with
  | Ok (o, w), Ok (o', w') => buf w o = buf w' o'
  | Raise e, Raise e' => e = e'
  | _, _ => False
  end.

End Results.

(** ** The stutter, segment by segment *)




(** ** A small instance of the libraries

    To run the effects on concrete inputs: a generator whose state is a
    counter and whose draws are [loc + scale * counter], a pitch shift and a
    band-pass filter that keep the samples, a time stretch that resamples to
    [round(n / rate)] samples, the one-pole pre-emphasis
    [y[i] = x[i] - 0.97 x[i-1]], a cubic for the sine. *)

Definition demo_normal (loc scale : Q) (n : nat) (g : Z) : list Q * Z :=
  (map (fun k : nat => (loc + scale * inject_Z (g + Z.of_nat k))%Q) (seq 0 n),
   (g + Z.of_nat n)%Z).

Definition demo_time_stretch (l : list Q) (rate : Q) : result (list Q) :=
  if Qle_bool rate 0 then Raise LibraryError
  else Ok (map (fun k : nat => l !!! Z.to_nat (py_int (inject_Z (Z.of_nat k) * rate)))
               (seq 0 (Z.to_nat (py_round (inject_Z (Z.of_nat (length l)) / rate))))).

Definition demo_butter (order : Z) (low high : Q) (fs : Z) : result (Q * Q) :=
  if Qle_bool low 0 || Qle_bool high low || Qle_bool (inject_Z fs / 2) high
  then Raise ValueError else Ok (low, high).

Definition demo_libs : NumericLibs := {|
  rng_state := Z;
  np_random_normal := demo_normal;
  np_sin := fun x => (x - x * x * x / 6)%Q;
  np_pi := (355 # 113)%Q;
  librosa_pitch_shift := fun l _ _ => Ok l;
  librosa_time_stretch := demo_time_stretch;
  librosa_preemphasis := fun l => Ok (zip_with (fun x p => (x - 0.97 * p)%Q) l (0%Q :: l));
  sos := (Q * Q)%type;
  scipy_butter := demo_butter;
  scipy_sosfilt := fun _ l => Ok l
|}.

(** A store over the small instance: its arrays and the counter of the
    generator. *)
Definition demo_world (arrays : list (list Q)) (counter : Z) : @world demo_libs :=
  @World demo_libs arrays counter.

(** ** The statements of the specification that the code does not meet

    Each is written after the words of the specification, over the code;
    numbers are compared as numbers ([==] on [Q]). *)

Section Specified.
Context `{NumericLibs}.






End Specified.

(** The largest magnitude of the samples of a buffer. *)
Definition max_abs (b : list Q) : Q := foldr (fun x m => Qmax (Qabs x) m) 0%Q b.

(** * The other effects of [voice_changer.py]

    The flanger and the presets that chain the effects above.  Three
    functions are left out: [apply_tremolo_voice], [apply_cylon_voice] and
    [apply_cybernetic_voice] multiply the samples by a sine of [i / sr], which
    with [sr = 0] makes nan samples, and the exact samples of this model
    cannot hold a nan.  [load_audio], [save_audio] and the script at the end
    of the file read and write files. *)

(** [librosa.effects.harmonic(y)], which only [apply_robot_voice_vocoder]
    calls. *)
Class HarmonicLib := {
  librosa_harmonic : list Q -> result (list Q)
}.

Section MoreEffects.
Context `{NumericLibs} `{HarmonicLib}.

(** The modulation of the flanger at index [k],
    [0.5 * (1 + np.sin(2 * np.pi * 0.25 * np.arange(n) / sr))]; the array is
    local to the call, and with [sr = 0] every entry is a nan ([None]). *)
Definition flanger_modulation (sr : Z) (k : Z) : option Q :=
  if (sr =? 0)%Z then None
  else Some (0.5 * (1 + np_sin (2 * np_pi * 0.25 * inject_Z k / inject_Z sr)))%Q.

(** [delay_samples = np.arange(0, max_delay)] of the source is never used.
    [modulation[i]] is an index into an array of [len(audio_data)] entries,
    and [int] of a nan is a [ValueError]. *)
Definition apply_flanger_voice (audio_data : ndarray) (sr : Z) : M ndarray :=
  flanger_audio ← np_copy audio_data ;
  let max_delay := py_int (0.003 * inject_Z sr) in
  n ← len audio_data ;
  let modulation := flanger_modulation sr in
  for_ (py_range max_delay n) (fun i =>
    match norm_index (Z.to_nat n) i with
    | None => raise IndexError
    | Some k =>
        match modulation (Z.of_nat k) with
        | None => raise ValueError
        | Some m =>
            let delay := py_int (m * inject_Z max_delay) in
            x ← getitem flanger_audio i ;
            y ← getitem audio_data (i - delay) ;
            setitem flanger_audio i (x + 0.5 * y)%Q
        end
    end) ;;
  ret flanger_audio.

Definition apply_child_voice (audio_data : ndarray) (sr : Z) : M ndarray :=
  pitch_shift audio_data sr 7.

Definition apply_male_voice (audio_data : ndarray) (sr : Z) : M ndarray :=
  pitch_shift audio_data sr (-3).

Definition apply_demon_voice (audio_data : ndarray) (sr : Z) : M ndarray :=
  pitch_shift audio_data sr (-12).

Definition apply_chipmunk_voice (audio_data : ndarray) (sr : Z) : M ndarray :=
  pitch_shift audio_data sr 15.

Definition apply_slow_motion_voice (audio_data : ndarray) (sr : Z) : M ndarray :=
  slow_voice_pitch ← pitch_shift audio_data sr (-5) ;
  change_speed slow_voice_pitch 0.5.

Definition apply_underwater_voice (audio_data : ndarray) (sr : Z) : M ndarray :=
  let lowcut := 300%Q in
  let highcut := 600%Q in
  sos ← lift (scipy_butter 10 lowcut highcut sr) ;
  library_call (scipy_sosfilt sos) audio_data.

Definition apply_monster_voice (audio_data : ndarray) (sr : Z) : M ndarray :=
  monster_voice ← pitch_shift audio_data sr (-9) ;
  apply_distorted_voice monster_voice.

Definition apply_megaphone_voice (audio_data : ndarray) (sr : Z) : M ndarray :=
  let lowcut := 500%Q in
  let highcut := 5000%Q in
  sos ← lift (scipy_butter 10 lowcut highcut sr) ;
  megaphone_voice ← library_call (scipy_sosfilt sos) audio_data ;
  scaled ← np_mul_scalar megaphone_voice 5 ;
  np_clip scaled (-1) 1.

Definition apply_space_voice (audio_data : ndarray) (sr : Z) : M ndarray :=
  space_voice ← apply_reverb audio_data sr 0.9 ;
  apply_echo space_voice sr 0.5 0.6.

Definition apply_deep_voice (audio_data : ndarray) (sr : Z) : M ndarray :=
  robot_voice ← pitch_shift audio_data sr (-6) ;
  scaled ← np_mul_scalar robot_voice 2 ;
  np_clip scaled (-1) 1.

Definition apply_broken_robot_voice (audio_data : ndarray) (sr : Z) : M ndarray :=
  broken_robot_voice ← pitch_shift audio_data sr (-4) ;
  scaled ← np_mul_scalar broken_robot_voice 1.5 ;
  broken_robot_voice ← np_clip scaled (-1) 1 ;
  change_speed broken_robot_voice 0.8.

Definition apply_alien_voice (audio_data : ndarray) (sr : Z) : M ndarray :=
  alien_invasion_voice ← pitch_shift audio_data sr 12 ;
  change_speed alien_invasion_voice 0.7.

Definition apply_slow_down_voice (audio_data : ndarray) (sr : Z) : M ndarray :=
  change_speed audio_data 0.5.

Definition apply_cyborg_voice (audio_data : ndarray) (sr : Z) : M ndarray :=
  cyborg_voice ← pitch_shift audio_data sr (-4) ;
  change_speed cyborg_voice 0.8.

Definition apply_robot_voice_vocoder (audio_data : ndarray) (sr : Z) : M ndarray :=
  robot_voice ← library_call librosa_harmonic audio_data ;
  pitch_shift robot_voice sr (-3).

Definition apply_darth_vader_voice (audio_data : ndarray) (sr : Z) : M ndarray :=
  darth_vader_voice ← pitch_shift audio_data sr (-7) ;
  apply_reverb darth_vader_voice sr 0.7.

Definition apply_ghostly_whisper_voice (audio_data : ndarray) (sr : Z) : M ndarray :=
  ghostly_whisper_voice ← pitch_shift audio_data sr (-5) ;
  apply_reverb ghostly_whisper_voice sr 0.95.

Definition apply_evil_witch_voice (audio_data : ndarray) (sr : Z) : M ndarray :=
  evil_witch_voice ← pitch_shift audio_data sr (-3) ;
  apply_echo evil_witch_voice sr 0.3 0.6.

Definition apply_cyberpunk_voice (audio_data : ndarray) (sr : Z) : M ndarray :=
  cyberpunk_voice ← pitch_shift audio_data sr 4 ;
  scaled ← np_mul_scalar cyberpunk_voice 1.5 ;
  cyberpunk_voice ← np_clip scaled (-1) 1 ;
  apply_echo cyberpunk_voice sr 0.4 0.5.

Definition apply_mad_scientist_voice (audio_data : ndarray) (sr : Z) : M ndarray :=
  mad_scientist_voice ← pitch_shift audio_data sr 5 ;
  scaled ← np_mul_scalar mad_scientist_voice 1.3 ;
  mad_scientist_voice ← np_clip scaled (-1) 1 ;
  apply_echo mad_scientist_voice sr 0.5 0.6.

Definition apply_galactic_voice (audio_data : ndarray) (sr : Z) : M ndarray :=
  galactic_voice ← pitch_shift audio_data sr 3 ;
  galactic_voice ← apply_echo galactic_voice sr 0.5 0.5 ;
  apply_reverb galactic_voice sr 0.8.

(** [apply_chorus(audio_data, sr=sr, depth=0.5)]: the defaults for the rest. *)
Definition apply_celestial_voice (audio_data : ndarray) (sr : Z) : M ndarray :=
  celestial_voice ← apply_chorus audio_data sr 0.5 0.004 1.3 ;
  apply_reverb celestial_voice sr 0.6.

Definition apply_cosmic_voice (audio_data : ndarray) (sr : Z) : M ndarray :=
  cosmic_voice ← pitch_shift audio_data sr 5 ;
  cosmic_voice ← apply_echo cosmic_voice sr 0.3 0.5 ;
  apply_reverb cosmic_voice sr 0.8.

Definition apply_enchanted_voice (audio_data : ndarray) (sr : Z) : M ndarray :=
  enchanted_voice ← pitch_shift audio_data sr 4 ;
  enchanted_voice ← apply_chorus enchanted_voice sr 0.03 0.004 1.3 ;
  apply_reverb enchanted_voice sr 0.7.

Definition apply_tunnel_voice (audio_data : ndarray) (sr : Z) : M ndarray :=
  apply_reverb audio_data sr 0.95.

(** ** The catalogue of the presets *)

Inductive preset :=
  | ChildVoice | MaleVoice | DemonVoice | ChipmunkVoice | SlowMotionVoice
  | UnderwaterVoice | MonsterVoice | MegaphoneVoice | SpaceVoice | DeepVoice
  | BrokenRobotVoice | AlienVoice | SlowDownVoice | CyborgVoice
  | RobotVoiceVocoder | DarthVaderVoice | GhostlyWhisperVoice | EvilWitchVoice
  | CyberpunkVoice | MadScientistVoice | GalacticVoice | CelestialVoice
  | CosmicVoice | EnchantedVoice | TunnelVoice.

Definition run_preset (p : preset) (audio_data : ndarray) (sr : Z) : M ndarray :=
  match p with
  | ChildVoice => apply_child_voice audio_data sr
  | MaleVoice => apply_male_voice audio_data sr
  | DemonVoice => apply_demon_voice audio_data sr
  | ChipmunkVoice => apply_chipmunk_voice audio_data sr
  | SlowMotionVoice => apply_slow_motion_voice audio_data sr
  | UnderwaterVoice => apply_underwater_voice audio_data sr
  | MonsterVoice => apply_monster_voice audio_data sr
  | MegaphoneVoice => apply_megaphone_voice audio_data sr
  | SpaceVoice => apply_space_voice audio_data sr
  | DeepVoice => apply_deep_voice audio_data sr
  | BrokenRobotVoice => apply_broken_robot_voice audio_data sr
  | AlienVoice => apply_alien_voice audio_data sr
  | SlowDownVoice => apply_slow_down_voice audio_data sr
  | CyborgVoice => apply_cyborg_voice audio_data sr
  | RobotVoiceVocoder => apply_robot_voice_vocoder audio_data sr
  | DarthVaderVoice => apply_darth_vader_voice audio_data sr
  | GhostlyWhisperVoice => apply_ghostly_whisper_voice audio_data sr
  | EvilWitchVoice => apply_evil_witch_voice audio_data sr
  | CyberpunkVoice => apply_cyberpunk_voice audio_data sr
  | MadScientistVoice => apply_mad_scientist_voice audio_data sr
  | GalacticVoice => apply_galactic_voice audio_data sr
  | CelestialVoice => apply_celestial_voice audio_data sr
  | CosmicVoice => apply_cosmic_voice audio_data sr
  | EnchantedVoice => apply_enchanted_voice audio_data sr
  | TunnelVoice => apply_tunnel_voice audio_data sr
  end.

(** The presets whose last step is [np.clip(., -1, 1)], in the preset itself
    or at the end of [apply_reverb] or [apply_distorted_voice]. *)
Definition ends_clipped (p : preset) : bool :=
  match p with
  | MonsterVoice | MegaphoneVoice | DeepVoice | DarthVaderVoice
  | GhostlyWhisperVoice | GalacticVoice | CelestialVoice | CosmicVoice
  | EnchantedVoice | TunnelVoice => true
  | _ => false
  end.

(** The presets that end with an echo of a clipped signal, and the decay of
    that echo. *)
Definition echo_of_clipped (p : preset) : option Q :=
  match p with
  | SpaceVoice => Some 0.6%Q
  | CyberpunkVoice => Some 0.5%Q
  | MadScientistVoice => Some 0.6%Q
  | _ => None
  end.

(** The store [w'] holds the arrays of [w] as they were, the array [o] is
    an array of [w'] and not one of [w], and the generator is where it was. *)
Definition new_array_in (w : world) (o : ndarray) (w' : world) : Prop :=
  valid w' o /\ heap w `prefix_of` heap w' /\ (length (heap w) <= base o)%nat
  /\ rng w' = rng w.

(** What a run from the store [w] guarantees when it returns: a new array,
    whose samples satisfy [P]. *)
Definition returns_new (r : result (ndarray * world)) (w : world)
    (P : list Q -> Prop) : Prop :=
  match r with
  | Ok (o, w') => new_array_in w o w' /\ P (buf w' o)
  | Raise _ => True
  end.

Definition within (lo hi : Q) (l : list Q) : Prop :=
  Forall (fun x => (lo <= x <= hi)%Q) l.

(** What the last step of a preset guarantees of its samples. *)
Definition preset_samples (p : preset) (l : list Q) : Prop :=
  (ends_clipped p = true -> within (-1) 1 l)
  /\ (forall decay, echo_of_clipped p = Some decay ->
        Forall (fun y => (Qabs y <= 1 + decay)%Q) l).

End MoreEffects.

(** A second small instance of the libraries, with a sine that stays in
    [-1, 1] (the cubic of the first one, clipped). *)
Definition demo_bounded_libs : NumericLibs := {|
  rng_state := Z;
  np_random_normal := demo_normal;
  np_sin := fun x => np_clip1 (-1) 1 (x - x * x * x / 6)%Q;
  np_pi := (355 # 113)%Q;
  librosa_pitch_shift := fun l _ _ => Ok l;
  librosa_time_stretch := demo_time_stretch;
  librosa_preemphasis := fun l => Ok (zip_with (fun x p => (x - 0.97 * p)%Q) l (0%Q :: l));
  sos := (Q * Q)%type;
  scipy_butter := demo_butter;
  scipy_sosfilt := fun _ l => Ok l
|}.

Definition demo_bounded_world (arrays : list (list Q)) (counter : Z)
  : @world demo_bounded_libs :=
  @World demo_bounded_libs arrays counter.

Definition demo_harmonic : HarmonicLib := {| librosa_harmonic := fun l => Ok l |}.

(** ** Basic facts: the store *)

Section Store.
Context `{NumericLibs}.

Lemma view_involutive r l : view r (view r l) = l.
Proof. destruct r; simpl; [apply reverse_involutive | done]. Qed.

Lemma view_length r l : length (view r l) = length l.
Proof. destruct r; simpl; [apply length_reverse | done]. Qed.

Lemma buf_alloc_fresh w l : buf (alloc w l) (fresh w) = l.
Proof.
  unfold buf, alloc, fresh; simpl.
  rewrite list_lookup_total_middle; done.
Qed.

Lemma buf_alloc_old w a l : valid w a -> buf (alloc w l) a = buf w a.
Proof.
  unfold valid, buf, alloc; simpl; intros Hv.
  by rewrite lookup_total_app_l.
Qed.

Lemma valid_alloc_fresh w l : valid (alloc w l) (fresh w).
Proof. unfold valid, alloc, fresh; simpl. rewrite length_app; simpl; lia. Qed.

Lemma buf_set_buf_eq w a l : valid w a -> buf (set_buf w a l) a = l.
Proof.
  unfold valid, buf, set_buf; simpl; intros Hv.
  rewrite list_lookup_total_insert_eq by done. apply view_involutive.
Qed.

Lemma valid_set_buf w a a' l : valid (set_buf w a l) a' <-> valid w a'.
Proof. unfold valid, set_buf; simpl. by rewrite length_insert. Qed.

End Store.

(** ** Basic facts: the monad and the loops *)

Section Monad.
Context `{NumericLibs}.

Lemma bind_Ok {A B} (m : M A) (k : A -> M B) w x w' :
  m w = Ok (x, w') -> (m ≫= k) w = k x w'.
Proof. unfold mbind, M_bind, bind. by intros ->. Qed.

Lemma bind_Raise {A B} (m : M A) (k : A -> M B) w e :
  m w = Raise e -> (m ≫= k) w = Raise e.
Proof. unfold mbind, M_bind, bind. by intros ->. Qed.

Lemma set_buf_alloc w l l' : set_buf (alloc w l) (fresh w) l' = alloc w l'.
Proof.
  unfold set_buf, alloc, fresh; simpl. f_equal.
  rewrite insert_app_r_alt by lia. by rewrite Nat.sub_diag.
Qed.

Lemma norm_index_nat n (i : nat) : (i < n)%nat -> norm_index n (Z.of_nat i) = Some i.
Proof.
  intros Hi. unfold norm_index.
  replace ((0 <=? Z.of_nat i)%Z && (Z.of_nat i <? Z.of_nat n)%Z) with true.
  - by rewrite Nat2Z.id.
  - symmetry. apply andb_true_iff. split; [apply Z.leb_le | apply Z.ltb_lt]; lia.
Qed.

Lemma norm_index_high n (i : Z) : (Z.of_nat n <= i)%Z -> norm_index n i = None.
Proof.
  intros Hi. unfold norm_index.
  replace (i <? Z.of_nat n)%Z with false by (symmetry; apply Z.ltb_ge; lia).
  replace (i <? 0)%Z with false by (symmetry; apply Z.ltb_ge; lia).
  by rewrite !andb_false_r.
Qed.

Lemma py_range_nat (a : Z) (n : nat) :
  (0 <= a)%Z ->
  py_range a (Z.of_nat n) = Z.of_nat <$> seq (Z.to_nat a) (n - Z.to_nat a).
Proof.
  intros Ha. unfold py_range.
  replace (Z.to_nat (Z.of_nat n - a)) with (n - Z.to_nat a)%nat by lia.
  generalize (n - Z.to_nat a)%nat as m. intros m.
  replace (seq (Z.to_nat a) m) with (seq (Z.to_nat a + 0) m) by (f_equal; lia).
  rewrite <- (fmap_add_seq (Z.to_nat a) 0 m), <- list_fmap_compose.
  apply list_fmap_ext. intros _ k _. simpl. lia.
Qed.

(** A loop whose rounds all return: it computes a left fold. *)
Lemma for_foldl {S} (R : S -> world) (Inv : S -> Prop) (step : S -> nat -> S)
    (body : Z -> M unit) (js : list nat) :
  (forall s i, Inv s -> i ∈ js ->
     body (Z.of_nat i) (R s) = Ok (tt, R (step s i)) /\ Inv (step s i)) ->
  forall s, Inv s ->
    for_ (Z.of_nat <$> js) body (R s) = Ok (tt, R (foldl step s js))
    /\ Inv (foldl step s js).
Proof.
  induction js as [|j js IH]; intros Hbody s Hs; simpl; [done|].
  destruct (Hbody s j Hs) as [Hb Hs']; [left|].
  rewrite (bind_Ok _ _ _ _ _ Hb).
  apply IH; [|done]. intros s0 i ? ?. apply Hbody; [done | by right].
Qed.

(** A loop whose every round raises [e] or keeps an invariant, and one of
    whose rounds always raises [e], raises [e]. *)
Lemma for_raises (Inv : world -> Prop) (e : exn) (body : Z -> M unit)
    (js1 : list Z) (j : Z) (js2 : list Z) :
  (forall i w, Inv w -> i ∈ js1 ->
     body i w = Raise e \/ exists w', body i w = Ok (tt, w') /\ Inv w') ->
  (forall w, Inv w -> body j w = Raise e) ->
  forall w, Inv w -> for_ (js1 ++ j :: js2) body w = Raise e.
Proof.
  intros Hbody Hj. induction js1 as [|i js1 IH]; intros w Hw; simpl.
  - by rewrite (bind_Raise _ _ _ _ (Hj w Hw)).
  - destruct (Hbody i w Hw) as [Hr | (w' & Hr & Hw')]; [left| |].
    + by rewrite (bind_Raise _ _ _ _ Hr).
    + rewrite (bind_Ok _ _ _ _ _ Hr). apply IH; [|done].
      intros i0 w0 ? ?. apply Hbody; [done | by right].
Qed.

End Monad.

(** ** Basic facts: reading and writing arrays *)

Section Arrays.
Context `{NumericLibs}.

Lemma getitem_alloc_old w a out (i : nat) :
  valid w a -> (i < length (buf w a))%nat ->
  getitem a (Z.of_nat i) (alloc w out) = Ok (buf w a !!! i, alloc w out).
Proof.
  intros Hv Hi. unfold getitem. rewrite buf_alloc_old by done.
  by rewrite norm_index_nat.
Qed.

Lemma getitem_alloc_fresh w out (i : nat) :
  (i < length out)%nat ->
  getitem (fresh w) (Z.of_nat i) (alloc w out) = Ok (out !!! i, alloc w out).
Proof.
  intros Hi. unfold getitem. rewrite buf_alloc_fresh. by rewrite norm_index_nat.
Qed.

Lemma setitem_alloc_fresh w out (i : nat) v :
  (i < length out)%nat ->
  setitem (fresh w) (Z.of_nat i) v (alloc w out) = Ok (tt, alloc w (<[i := v]> out)).
Proof.
  intros Hi. unfold setitem. rewrite buf_alloc_fresh, norm_index_nat by done.
  by rewrite set_buf_alloc.
Qed.

Lemma len_eq a w : len a w = Ok (Z.of_nat (length (buf w a)), w).
Proof. done. Qed.

Lemma getitem_cases a i w :
  getitem a i w = Raise IndexError
  \/ exists k, norm_index (length (buf w a)) i = Some k
               /\ getitem a i w = Ok (buf w a !!! k, w).
Proof.
  unfold getitem. destruct (norm_index _ i) as [k|]; [right; eauto | by left].
Qed.

Lemma setitem_cases a i v w :
  setitem a i v w = Raise IndexError
  \/ exists k, norm_index (length (buf w a)) i = Some k
               /\ setitem a i v w = Ok (tt, set_buf w a (<[k := v]> (buf w a))).
Proof.
  unfold setitem. destruct (norm_index _ i) as [k|]; [right; eauto | by left].
Qed.

(** Writing samples of the same number into an array keeps every length. *)
Lemma length_buf_set_buf w o l x :
  valid w o -> length l = length (buf w o) ->
  length (buf (set_buf w o l) x) = length (buf w x).
Proof.
  intros Hv Hl. unfold buf, set_buf in *; simpl. rewrite !view_length in *.
  destruct (decide (base x = base o)) as [->|Hne].
  - rewrite list_lookup_total_insert_eq by done. by rewrite view_length.
  - by rewrite list_lookup_total_insert_ne.
Qed.

Lemma py_range_snoc (a b : Z) :
  (a < b)%Z -> py_range a b = py_range a (b - 1) ++ [(b - 1)%Z].
Proof.
  intros Hab. unfold py_range.
  replace (Z.to_nat (b - a)) with (S (Z.to_nat (b - 1 - a))) by lia.
  rewrite seq_S, map_app. simpl. do 2 f_equal. lia.
Qed.

(** The loop shared by [apply_delay] and the echoes: with a negative delay
    its last round, if not an earlier one, indexes out of range. *)
Lemma tap_loop_negative (p q o : ndarray) (d : Z) (g : Q -> Q -> Q) (n : nat) w :
  (d < 0)%Z -> valid w o ->
  length (buf w p) = n -> length (buf w q) = n -> length (buf w o) = n ->
  for_ (py_range d (Z.of_nat n)) (fun i =>
    x ← getitem p i ; y ← getitem q (i - d) ; setitem o i (g x y)) w
  = Raise IndexError.
Proof.
  intros Hd Hv Hp Hq Ho. rewrite py_range_snoc by lia.
  pose (Inv := fun w' : world =>
    valid w' o /\ length (buf w' p) = n /\ length (buf w' q) = n
    /\ length (buf w' o) = n).
  apply (for_raises Inv); [| |done].
  - intros i w' (Hv' & Hp' & Hq' & Ho') _.
    destruct (getitem_cases p i w') as [E|(k & _ & E)];
      [left; by rewrite (bind_Raise _ _ _ _ E)|].
    rewrite (bind_Ok _ _ _ _ _ E).
    destruct (getitem_cases q (i - d) w') as [E2|(k2 & _ & E2)];
      [left; by rewrite (bind_Raise _ _ _ _ E2)|].
    rewrite (bind_Ok _ _ _ _ _ E2).
    destruct (setitem_cases o i (g (buf w' p !!! k) (buf w' q !!! k2)) w')
      as [E3|(k3 & Hk3 & E3)]; [by left|].
    right. eexists; split; [exact E3|].
    assert (length (<[k3 := g (buf w' p !!! k) (buf w' q !!! k2)]> (buf w' o))
            = length (buf w' o)) as Hlen by apply length_insert.
    unfold Inv. rewrite valid_set_buf, !length_buf_set_buf by done. done.
  - intros w' (Hv' & Hp' & Hq' & Ho').
    destruct (getitem_cases p (Z.of_nat n - 1) w') as [E|(k & Hk & E)];
      [by rewrite (bind_Raise _ _ _ _ E)|].
    rewrite (bind_Ok _ _ _ _ _ E).
    apply bind_Raise. unfold getitem. rewrite Hq', norm_index_high; [done | lia].
Qed.

End Arrays.

(** ** The feedback delay line *)

Section Delay.
Context `{NumericLibs}.

Lemma delay_step_length d f b out i : length (delay_step d f b out i) = length out.
Proof. apply length_insert. Qed.

(** What [apply_delay] returns, and where it raises. *)
Lemma apply_delay_eq w a sr dt f :
  valid w a ->
  apply_delay a sr dt f w =
    if (delay_samples sr dt <? 0)%Z then Raise IndexError
    else Ok (fresh w, alloc w (delay_line (Z.to_nat (delay_samples sr dt)) f (buf w a))).
Proof.
  intros Hv. unfold apply_delay. fold (delay_samples sr dt).
  set (d := delay_samples sr dt). set (b := buf w a).
  set (zeros := replicate (length b) 0%Q).
  assert (np_zeros_like a w = Ok (fresh w, alloc w zeros)) as E0 by done.
  rewrite (bind_Ok _ _ _ _ _ E0).
  assert (len a (alloc w zeros) = Ok (Z.of_nat (length b), alloc w zeros)) as E1.
  { rewrite len_eq, buf_alloc_old by done. done. }
  rewrite (bind_Ok _ _ _ _ _ E1).
  destruct (d <? 0)%Z eqn:Hd.
  - apply Z.ltb_lt in Hd. apply bind_Raise.
    apply (tap_loop_negative a (fresh w) (fresh w) d (fun x y => (x + f * y)%Q)).
    + done.
    + apply valid_alloc_fresh.
    + by rewrite buf_alloc_old.
    + rewrite buf_alloc_fresh. apply length_replicate.
    + rewrite buf_alloc_fresh. apply length_replicate.
  - apply Z.ltb_ge in Hd. rewrite py_range_nat by done.
    destruct (for_foldl (fun out => alloc w out) (fun out => length out = length b)
                (delay_step (Z.to_nat d) f b)
                (fun i => x ← getitem a i ; y ← getitem (fresh w) (i - d) ;
                          setitem (fresh w) i (x + f * y)%Q)
                (seq (Z.to_nat d) (length b - Z.to_nat d))) with (s := zeros)
      as [Hrun _].
    + intros out i Hout Hi. apply elem_of_seq in Hi.
      split; [|by rewrite delay_step_length].
      assert (i < length b)%nat as Hib by lia.
      rewrite (bind_Ok _ _ _ _ _ (getitem_alloc_old w a out i Hv Hib)).
      replace (Z.of_nat i - d)%Z with (Z.of_nat (i - Z.to_nat d)) by lia.
      assert (i - Z.to_nat d < length out)%nat as Hid by lia.
      rewrite (bind_Ok _ _ _ _ _ (getitem_alloc_fresh w out _ Hid)).
      rewrite setitem_alloc_fresh by lia. done.
    + apply length_replicate.
    + rewrite (bind_Ok _ _ _ _ _ Hrun). done.
Qed.

End Delay.

Section DelayLine.

Lemma lookup_total_ge (l : list Q) (i : nat) : (length l <= i)%nat -> l !!! i = 0%Q.
Proof.
  intros Hi. rewrite list_lookup_total_alt.
  by rewrite (proj2 (lookup_ge_None l i) Hi).
Qed.

Lemma lookup_total_Forall (P : Q -> Prop) (l : list Q) (i : nat) :
  Forall P l -> P 0%Q -> P (l !!! i).
Proof.
  intros Hl H0. destruct (decide (i < length l)%nat).
  - by apply Forall_lookup_total_1.
  - rewrite lookup_total_ge by lia. done.
Qed.

Implicit Types (b out : list Q) (d i j k : nat) (f : Q).







End DelayLine.

(** ** The echoes and the chorus: loops that touch index [i] in round [i] *)

Section Pointwise.
Context `{NumericLibs}.

Implicit Types (b out : list Q) (d i j k : nat).

Lemma foldl_pointwise (g : nat -> Q -> Q) init a k :
  length (foldl (pointwise_step g) init (seq a k)) = length init
  /\ forall j, (j < length init)%nat ->
       foldl (pointwise_step g) init (seq a k) !!! j
       = if decide (a <= j < a + k)%nat then g j (init !!! j) else init !!! j.
Proof.
  induction k as [|k IH].
  - simpl. split; [done|]. intros j _. case_decide; [lia | done].
  - rewrite seq_S, foldl_app. simpl. destruct IH as [Hlen Hval].
    set (prev := foldl (pointwise_step g) init (seq a k)) in *.
    split; [unfold pointwise_step; by rewrite length_insert|].
    intros j Hj. unfold pointwise_step at 1.
    destruct (decide (j = a + k)%nat) as [->|Hne].
    + rewrite list_lookup_total_insert_eq by lia. rewrite Hval by done.
      rewrite decide_False by lia. rewrite decide_True by lia. done.
    + rewrite list_lookup_total_insert_ne by lia. rewrite Hval by done.
      repeat case_decide; (done || lia).
Qed.

Lemma echo_line_length d decay b : length (echo_line d decay b) = length b.
Proof. apply (foldl_pointwise (fun i x => (x + decay * b !!! (i - d)%nat)%Q)). Qed.

Lemma echo_line_lookup d decay b j :
  (j < length b)%nat ->
  echo_line d decay b !!! j
  = if decide (d <= j)%nat then (b !!! j + decay * b !!! (j - d)%nat)%Q else b !!! j.
Proof.
  intros Hj. unfold echo_line.
  destruct (foldl_pointwise (fun i x => (x + decay * b !!! (i - d)%nat)%Q)
              b d (length b - d)) as [_ Hval].
  change (foldl (echo_step d decay b)) with
    (foldl (pointwise_step (fun i x => (x + decay * b !!! (i - d)%nat)%Q))).
  rewrite Hval by done. repeat case_decide; (done || lia).
Qed.


(** What [apply_echo] returns, and where it raises. *)
Lemma apply_echo_eq w a sr df decay :
  valid w a ->
  apply_echo a sr df decay w =
    if (delay_samples sr df <? 0)%Z then Raise IndexError
    else Ok (fresh w, alloc w (echo_line (Z.to_nat (delay_samples sr df)) decay (buf w a))).
Proof.
  intros Hv. unfold apply_echo. fold (delay_samples sr df).
  set (d := delay_samples sr df). set (b := buf w a).
  assert (np_copy a w = Ok (fresh w, alloc w b)) as E0 by done.
  rewrite (bind_Ok _ _ _ _ _ E0).
  assert (len a (alloc w b) = Ok (Z.of_nat (length b), alloc w b)) as E1.
  { rewrite len_eq, buf_alloc_old by done. done. }
  rewrite (bind_Ok _ _ _ _ _ E1).
  destruct (d <? 0)%Z eqn:Hd.
  - apply Z.ltb_lt in Hd. apply bind_Raise.
    apply (tap_loop_negative (fresh w) a (fresh w) d (fun x y => (x + decay * y)%Q)).
    + done.
    + apply valid_alloc_fresh.
    + by rewrite buf_alloc_fresh.
    + by rewrite buf_alloc_old.
    + by rewrite buf_alloc_fresh.
  - apply Z.ltb_ge in Hd. rewrite py_range_nat by done.
    destruct (for_foldl (fun out => alloc w out) (fun out => length out = length b)
                (echo_step (Z.to_nat d) decay b)
                (fun i : Z => x ← getitem (fresh w) i ; y ← getitem a (i - d)%Z ;
                          setitem (fresh w) i (x + decay * y)%Q)
                (seq (Z.to_nat d) (length b - Z.to_nat d))) with (s := b)
      as [Hrun _].
    + intros out i Hout Hi. apply elem_of_seq in Hi.
      split; [|unfold echo_step; by rewrite length_insert].
      assert (i < length out)%nat as Hio by lia.
      rewrite (bind_Ok _ _ _ _ _ (getitem_alloc_fresh w out i Hio)).
      replace (Z.of_nat i - d)%Z with (Z.of_nat (i - Z.to_nat d)) by lia.
      assert (i - Z.to_nat d < length (buf w a))%nat as Hid by (fold b; lia).
      rewrite (bind_Ok _ _ _ _ _ (getitem_alloc_old w a out _ Hv Hid)).
      rewrite setitem_alloc_fresh by lia. done.
    + done.
    + rewrite (bind_Ok _ _ _ _ _ Hrun). done.
Qed.


Lemma chorus_step_pointwise sr depth rate b out i :
  chorus_step sr depth rate b out i
  = pointwise_step (fun i x =>
      match chorus_delay_index sr depth rate (Z.of_nat i) with
      | Some delay_index =>
          if ((0 <=? delay_index) && (delay_index <? Z.of_nat (length b)))%Z
          then (x + b !!! Z.to_nat delay_index)%Q else x
      | None => x
      end) out i.
Proof.
  unfold chorus_step, pointwise_step.
  assert (<[i := out !!! i]> out = out) as Hid.
  { apply list_insert_id'. intros Hi. by apply list_lookup_lookup_total_lt. }
  destruct (chorus_delay_index sr depth rate (Z.of_nat i)) as [k|]; [|done].
  by destruct ((0 <=? k)%Z && (k <? Z.of_nat (length b))%Z).
Qed.

Lemma chorus_line_spec sr depth rate b :
  length (chorus_line sr depth rate b) = length b
  /\ forall j, (j < length b)%nat ->
       chorus_line sr depth rate b !!! j =
         match chorus_delay_index sr depth rate (Z.of_nat j) with
         | Some delay_index =>
             if ((0 <=? delay_index) && (delay_index <? Z.of_nat (length b)))%Z
             then (b !!! j + b !!! Z.to_nat delay_index)%Q else b !!! j
         | None => b !!! j
         end.
Proof.
  unfold chorus_line.
  set (g := fun (i : nat) (x : Q) =>
      match chorus_delay_index sr depth rate (Z.of_nat i) with
      | Some delay_index =>
          if ((0 <=? delay_index) && (delay_index <? Z.of_nat (length b)))%Z
          then (x + b !!! Z.to_nat delay_index)%Q else x
      | None => x
      end).
  assert (forall js out, foldl (chorus_step sr depth rate b) out js
                          = foldl (pointwise_step g) out js) as Hfold.
  { induction js as [|j js IH]; intros out; simpl; [done|].
    by rewrite chorus_step_pointwise, IH. }
  rewrite Hfold. destruct (foldl_pointwise g b 0 (length b)) as [Hlen Hval].
  split; [done|]. intros j Hj. rewrite Hval by done.
  rewrite decide_True by lia. done.
Qed.

(** What [apply_chorus] returns, and where it raises: with a zero sample
    rate the modulator is all nan, and [int(nan)] is a [ValueError]. *)
Lemma apply_chorus_eq w a sr depth delay rate :
  valid w a ->
  apply_chorus a sr depth delay rate w =
    if ((sr =? 0)%Z && negb (length (buf w a) =? 0)%nat) then Raise ValueError
    else Ok (fresh w, alloc w (chorus_line sr depth rate (buf w a))).
Proof.
  intros Hv. unfold apply_chorus. set (b := buf w a).
  rewrite (bind_Ok _ _ _ _ _ (len_eq a w)). fold b.
  assert (np_copy a w = Ok (fresh w, alloc w b)) as E0 by done.
  rewrite (bind_Ok _ _ _ _ _ E0).
  destruct (sr =? 0)%Z eqn:Hsr; simpl.
  - destruct (length b) as [|n] eqn:Hn; simpl.
    + unfold chorus_line. rewrite Hn. done.
    + apply bind_Raise. unfold py_range.
      replace (Z.to_nat (Z.of_nat (S n) - 0)) with (S n) by lia.
      simpl. apply bind_Raise. unfold chorus_modulator. by rewrite Hsr.
  - rewrite py_range_nat by done. simpl. rewrite Nat.sub_0_r.
    destruct (for_foldl (fun out => alloc w out) (fun out => length out = length b)
                (chorus_step sr depth rate b)
                (fun i : Z =>
                   match chorus_modulator sr depth rate i with
                   | None => raise ValueError
                   | Some m =>
                       let delay_index := py_int (inject_Z i - m) in
                       if ((0 <=? delay_index) && (delay_index <? Z.of_nat (length b)))%Z
                       then x ← getitem (fresh w) i ; y ← getitem a delay_index ;
                            setitem (fresh w) i (x + y)%Q
                       else ret tt
                   end)
                (seq 0 (length b))) with (s := b) as [Hrun _].
    + intros out i Hout Hi. apply elem_of_seq in Hi.
      unfold chorus_step, chorus_delay_index.
      destruct (chorus_modulator sr depth rate (Z.of_nat i)) as [m|] eqn:Em;
        [|unfold chorus_modulator in Em; by rewrite Hsr in Em].
      simpl. set (k := py_int (inject_Z (Z.of_nat i) - m)).
      destruct ((0 <=? k)%Z && (k <? Z.of_nat (length b))%Z) eqn:Ek; [|done].
      apply andb_true_iff in Ek as [?%Z.leb_le ?%Z.ltb_lt].
      split; [|by rewrite length_insert].
      assert (i < length out)%nat as Hio by lia.
      rewrite (bind_Ok _ _ _ _ _ (getitem_alloc_fresh w out i Hio)).
      rewrite <- (Z2Nat.id k) at 1 by done.
      assert (Z.to_nat k < length (buf w a))%nat as Hk by (fold b; lia).
      rewrite (bind_Ok _ _ _ _ _ (getitem_alloc_old w a out _ Hv Hk)).
      rewrite setitem_alloc_fresh by lia. done.
    + done.
    + rewrite (bind_Ok _ _ _ _ _ Hrun). done.
Qed.

End Pointwise.

(** ** Every effect computes its result *)

Section Effects.
Context `{NumericLibs}.

Lemma prefix_alloc w0 w l :
  heap w0 `prefix_of` heap w -> heap w0 `prefix_of` heap (alloc w l).
Proof. intros [k Hk]. exists (k ++ [l]). simpl. by rewrite Hk, app_assoc. Qed.

Lemma yields_new_yields r w F : yields_new r w F -> yields r F.
Proof.
  unfold yields_new, yields. destruct F as [[out g]|e]; [|done].
  intros (o & w' & ? & ? & ? & ? & _). eauto 10.
Qed.

(** The input of an effect that [yields_new] is untouched, whatever view of
    whatever array of the old store one looks through. *)
Lemma yields_new_frame r w out g :
  yields_new r w (Ok (out, g)) ->
  exists o w', r = Ok (o, w') /\ buf w' o = out
    /\ (forall a, valid w a -> buf w' a = buf w a /\ base o <> base a).
Proof.
  intros (o & w' & -> & Hv & Hb & _ & [k Hk] & Ho).
  exists o, w'. repeat split; [done| |].
  - unfold buf. rewrite Hk. by rewrite lookup_total_app_l.
  - unfold valid in *. lia.
Qed.

Lemma yields_new_alloc w out :
  yields_new (Ok (fresh w, alloc w out)) w (Ok (out, rng w)).
Proof.
  exists (fresh w), (alloc w out).
  split; [done|]. split; [apply valid_alloc_fresh|].
  split; [apply buf_alloc_fresh|]. split; [done|].
  split; [by apply prefix_alloc | done].
Qed.

Lemma apply_delay_yields w a sr dt f :
  valid w a ->
  yields_new (apply_delay a sr dt f w) w
    (keeps_rng (delay_result sr dt f (buf w a)) (rng w)).
Proof.
  intros Hv. rewrite apply_delay_eq by done. unfold delay_result.
  destruct (delay_samples sr dt <? 0)%Z; [done|]. apply yields_new_alloc.
Qed.

Lemma apply_echo_yields w a sr df decay :
  valid w a ->
  yields_new (apply_echo a sr df decay w) w
    (keeps_rng (echo_result sr df decay (buf w a)) (rng w)).
Proof.
  intros Hv. rewrite apply_echo_eq by done. unfold echo_result.
  destruct (delay_samples sr df <? 0)%Z; [done|]. apply yields_new_alloc.
Qed.

Lemma apply_chorus_yields w a sr depth delay rate :
  valid w a ->
  yields_new (apply_chorus a sr depth delay rate w) w
    (keeps_rng (chorus_result sr depth rate (buf w a)) (rng w)).
Proof.
  intros Hv. rewrite apply_chorus_eq by done. unfold chorus_result.
  destruct ((sr =? 0)%Z && negb (length (buf w a) =? 0)%nat); [done|].
  apply yields_new_alloc.
Qed.

Lemma library_call_yields f w a :
  valid w a ->
  yields_new (library_call f a w) w (keeps_rng (f (buf w a)) (rng w)).
Proof.
  intros Hv. unfold library_call. destruct (f (buf w a)) as [l|e]; [|done].
  apply yields_new_alloc.
Qed.

(** Running one effect after another that returned a new array. *)
Lemma yields_new_then (m : M ndarray) (k : ndarray -> M ndarray) w
    (F1 : result (list Q)) (F : result (list Q * rng_state)) :
  yields_new (m w) w (keeps_rng F1 (rng w)) ->
  (forall e, F1 = Raise e -> F = Raise e) ->
  (forall l o w', F1 = Ok l -> valid w' o -> buf w' o = l -> rng w' = rng w ->
     yields_new (k o w') w' F) ->
  yields_new ((m ≫= k) w) w F.
Proof.
  intros Hm Hraise Hk. destruct F1 as [l|e]; simpl in Hm.
  - destruct Hm as (o & w' & Hr & Hv & Hb & Hg & Hpre & Ho).
    rewrite (bind_Ok _ _ _ _ _ Hr).
    specialize (Hk l o w' eq_refl Hv Hb Hg).
    unfold yields_new in *. destruct F as [[out g]|e]; [|done].
    destruct Hk as (o2 & w2 & -> & ? & ? & ? & Hpre2 & Ho2).
    exists o2, w2. repeat split; try done.
    + by etrans.
    + apply prefix_length in Hpre. lia.
  - rewrite (bind_Raise _ _ _ _ Hm). by rewrite (Hraise e).
Qed.

End Effects.

(** ** Effects without loops: symbolic runs on the extended store *)

Section Ext.
Context `{NumericLibs}.

Lemma alloc_base w l : alloc w l = ext w [l] (rng w).
Proof. done. Qed.

Lemma fresh_base w : fresh w = new w 0 false.
Proof. unfold fresh, new. by rewrite Nat.add_0_r. Qed.

Lemma alloc_ext w ls g l : alloc (ext w ls g) l = ext w (ls ++ [l]) g.
Proof. unfold alloc, ext; simpl. by rewrite app_assoc. Qed.

Lemma fresh_ext w ls g : fresh (ext w ls g) = new w (length ls) false.
Proof. unfold fresh, new, ext; simpl. by rewrite length_app. Qed.

Lemma set_rng_ext w ls g g' : set_rng (ext w ls g) g' = ext w ls g'.
Proof. done. Qed.

Lemma set_rng_base w g : set_rng w g = ext w [] g.
Proof. unfold set_rng, ext. by rewrite app_nil_r. Qed.

Lemma rng_ext w ls g : rng (ext w ls g) = g.
Proof. done. Qed.

Lemma ext_ext w ls g ls' g' : ext (ext w ls g) ls' g' = ext w (ls ++ ls') g'.
Proof. unfold ext; simpl. by rewrite app_assoc. Qed.

Lemma new_ext w ls g k r : new (ext w ls g) k r = new w (length ls + k) r.
Proof. unfold new, ext; simpl. rewrite length_app. f_equal. lia. Qed.

Lemma buf_ext_old w ls g a : valid w a -> buf (ext w ls g) a = buf w a.
Proof. intros Hv. unfold buf, ext; simpl. by rewrite lookup_total_app_l. Qed.

Lemma buf_ext_new w ls g k r : buf (ext w ls g) (new w k r) = view r (ls !!! k).
Proof.
  unfold buf, ext, new; simpl. rewrite lookup_total_app_r by lia.
  do 2 f_equal. lia.
Qed.

Lemma set_buf_ext_new w ls g k r l :
  set_buf (ext w ls g) (new w k r) l = ext w (<[k := view r l]> ls) g.
Proof.
  unfold set_buf, ext, new; simpl. f_equal.
  rewrite insert_app_r_alt by lia. do 2 f_equal. lia.
Qed.

Lemma np_flip_new w k r : np_flip (new w k r) = new w k (negb r).
Proof. done. Qed.

Lemma yields_new_ext w ls g k :
  (k < length ls)%nat ->
  yields_new (Ok (new w k false, ext w ls g)) w (Ok (ls !!! k, g)).
Proof.
  intros Hk. exists (new w k false), (ext w ls g).
  split; [done|]. split; [|split; [|split; [|split]]].
  - unfold valid, ext, new; simpl. rewrite length_app. lia.
  - apply buf_ext_new.
  - done.
  - by eexists.
  - simpl; lia.
Qed.

End Ext.

Create Rewrite HintDb store.
#[local] Hint Rewrite @ext_ext @new_ext @alloc_ext @fresh_ext @set_rng_ext @rng_ext
  @buf_ext_new @set_buf_ext_new @np_flip_new @alloc_base @fresh_base
  @set_rng_base : store.

(** Bring the run of an effect to the form [Ok (new w k r, ext w ls g)]. *)
Ltac store_norm :=
  repeat (progress (autorewrite with store; rewrite ?buf_ext_old by assumption;
          cbn [app length insert list_insert lookup_total list_lookup_total
               view negb fst snd Nat.add]));
  rewrite ?Nat2Z.id.

Ltac run_effect_ops :=
  unfold np_mul_scalar, np_scalar_mul, np_clip, np_copy, np_zeros_like, np_add,
    np_linspace_, len, np_random_normal_, np_iadd, np_imul_slice, update_array,
    library_call, getslice, lift, np_array, mbind, M_bind, bind, result_bind,
    mret, M_ret, ret.

Ltac finish_new :=
  match goal with
  | |- yields_new (Ok (new ?w ?k false, ext ?w ?ls ?g)) ?w _ =>
      apply (yields_new_ext w ls g k); simpl; lia
  | |- yields_new (Raise _) _ _ => reflexivity
  end.

Section Straight.
Context `{NumericLibs}.

Lemma buf_np_flip w a : buf w (np_flip a) = reverse (buf w a).
Proof.
  unfold buf, np_flip; simpl.
  destruct (rev a); simpl; [by rewrite reverse_involutive | done].
Qed.

Lemma pitch_shift_yields w a sr n :
  valid w a ->
  yields_new (pitch_shift a sr n w) w
    (keeps_rng (librosa_pitch_shift (buf w a) sr n) (rng w)).
Proof. intros Hv. by apply (library_call_yields (fun y => librosa_pitch_shift y sr n)). Qed.

Lemma change_speed_yields w a rate :
  valid w a ->
  yields_new (change_speed a rate w) w
    (keeps_rng (librosa_time_stretch (buf w a) rate) (rng w)).
Proof. intros Hv. by apply (library_call_yields (fun y => librosa_time_stretch y rate)). Qed.

Lemma apply_reverb_yields w a sr amt :
  valid w a ->
  yields_new (apply_reverb a sr amt w) w
    (keeps_rng (reverb_result amt (buf w a)) (rng w)).
Proof.
  intros Hv. unfold apply_reverb, reverb_result, keeps_rng.
  run_effect_ops. store_norm.
  destruct (librosa_preemphasis _); store_norm; finish_new.
Qed.

Lemma apply_girl_voice_yields w a sr :
  valid w a ->
  yields_new (apply_girl_voice a sr w) w
    (keeps_rng (girl_voice_result sr (buf w a)) (rng w)).
Proof.
  intros Hv. unfold apply_girl_voice, girl_voice_result, keeps_rng.
  run_effect_ops. store_norm.
  destruct (librosa_pitch_shift _ _ _); store_norm; [|finish_new].
  destruct (librosa_time_stretch _ _); store_norm; [|finish_new].
  destruct (linspace_samples 0 1 _); store_norm; [|finish_new].
  destruct (linspace_samples 1 0 _); store_norm; [|finish_new].
  destruct (imul_slice_samples _ _ _ _); store_norm; [|finish_new].
  destruct (imul_slice_samples _ _ _ _); store_norm; finish_new.
Qed.

Lemma apply_distorted_voice_yields w a :
  valid w a ->
  yields_new (apply_distorted_voice a w) w (Ok (distorted_result (buf w a), rng w)).
Proof.
  intros Hv. unfold apply_distorted_voice, distorted_result.
  run_effect_ops. store_norm. finish_new.
Qed.

Lemma apply_telephone_voice_yields w a sr :
  valid w a ->
  yields_new (apply_telephone_voice a sr w) w
    (keeps_rng (telephone_result sr (buf w a)) (rng w)).
Proof.
  intros Hv. unfold apply_telephone_voice, telephone_result, keeps_rng.
  run_effect_ops. store_norm.
  destruct (scipy_butter _ _ _ _); store_norm; [|finish_new].
  destruct (scipy_sosfilt _ _); store_norm; finish_new.
Qed.

Lemma apply_whisper_voice_yields w a :
  valid w a ->
  yields_new (apply_whisper_voice a w) w (whisper_result (buf w a) (rng w)).
Proof.
  intros Hv. unfold apply_whisper_voice, whisper_result.
  run_effect_ops. store_norm.
  destruct (iadd_samples _ _); store_norm; finish_new.
Qed.

Lemma apply_radio_voice_yields w a sr :
  valid w a ->
  yields_new (apply_radio_voice a sr w) w (radio_result sr (buf w a) (rng w)).
Proof.
  intros Hv. unfold apply_radio_voice, radio_result.
  run_effect_ops. store_norm.
  destruct (scipy_butter _ _ _ _); store_norm; [|finish_new].
  destruct (scipy_sosfilt _ _); store_norm; [|finish_new].
  destruct (iadd_samples _ _); store_norm; finish_new.
Qed.

Lemma apply_digital_glitch_voice_yields w a sr :
  valid w a ->
  yields_new (apply_digital_glitch_voice a sr w) w (glitch_result (buf w a) (rng w)).
Proof.
  intros Hv. unfold apply_digital_glitch_voice, glitch_result.
  run_effect_ops. store_norm.
  destruct (add_samples _ _); store_norm; finish_new.
Qed.

(** The loop of the stutter only reads the input and extends a local list. *)
Lemma stutter_loop a segment_length starts acc w :
  for_acc starts acc (fun i stuttering_voice =>
    s1 ← getslice a (Some i) (Some (i + segment_length)%Z) ;
    s2 ← getslice a (Some i)
           (Some (i + py_int (inject_Z segment_length / 2))%Z) ;
    ret (stuttering_voice ++ s1 ++ s2)) w
  = Ok (foldl (fun acc i => acc ++ stutter_piece segment_length (buf w a) i) acc starts, w).
Proof.
  revert acc. induction starts as [|i starts IH]; intros acc; simpl; [done|].
  rewrite <- IH. done.
Qed.

Lemma apply_stuttering_voice_yields w a sr factor :
  valid w a ->
  yields_new (apply_stuttering_voice a sr factor w) w
    (keeps_rng (stutter_result sr factor (buf w a)) (rng w)).
Proof.
  intros Hv. unfold apply_stuttering_voice, stutter_result, keeps_rng.
  rewrite (bind_Ok _ _ _ _ _ (len_eq a w)).
  destruct (py_range_step 0 (Z.of_nat (length (buf w a))) _) as [starts|e] eqn:E.
  - assert (lift (Ok starts) w = Ok (starts, w)) as E1 by done.
    rewrite (bind_Ok _ _ _ _ _ E1).
    rewrite (bind_Ok _ _ _ _ _ (stutter_loop _ _ _ _ _)).
    run_effect_ops. store_norm. finish_new.
  - assert (lift (Raise e : result (list Z)) w = Raise e) as E1 by done.
    by rewrite (bind_Raise _ _ _ _ E1).
Qed.

Lemma apply_haunted_voice_yields w a sr :
  valid w a ->
  yields_new (apply_haunted_voice a sr w) w
    (keeps_rng (haunted_result sr (buf w a)) (rng w)).
Proof.
  intros Hv. unfold apply_haunted_voice.
  eapply yields_new_then; [by apply apply_reverb_yields| |].
  - intros e He. unfold haunted_result. by rewrite He.
  - intros l o w' Hl Hv' Hb Hg. unfold haunted_result. rewrite Hl. simpl.
    rewrite <- Hb, <- Hg. by apply apply_echo_yields.
Qed.

Lemma apply_mystical_voice_yields w a sr :
  valid w a ->
  yields_new (apply_mystical_voice a sr w) w
    (keeps_rng (mystical_result sr (buf w a)) (rng w)).
Proof.
  intros Hv. unfold apply_mystical_voice.
  eapply yields_new_then; [by apply pitch_shift_yields| |].
  - intros e He. unfold mystical_result. by rewrite He.
  - intros l o w' Hl Hv' Hb Hg. unfold mystical_result. rewrite Hl. simpl.
    eapply yields_new_then; [by apply apply_chorus_yields| |].
    + intros e He. rewrite Hb in He. by rewrite He.
    + intros l2 o2 w2 Hl2 Hv2 Hb2 Hg2. rewrite Hb in Hl2. rewrite Hl2. simpl.
      rewrite <- Hb2, <- Hg, <- Hg2. by apply apply_delay_yields.
Qed.

Lemma apply_transcendent_voice_yields w a sr :
  valid w a ->
  yields_new (apply_transcendent_voice a sr w) w
    (keeps_rng (transcendent_result sr (buf w a)) (rng w)).
Proof.
  intros Hv. unfold apply_transcendent_voice.
  eapply yields_new_then; [by apply pitch_shift_yields| |].
  - intros e He. unfold transcendent_result. by rewrite He.
  - intros l o w' Hl Hv' Hb Hg. unfold transcendent_result. rewrite Hl. simpl.
    assert (apply_reversed_voice o w' = Ok (np_flip o, w')) as E by done.
    rewrite (bind_Ok _ _ _ _ _ E).
    rewrite <- Hb, <- buf_np_flip, <- Hg. by apply apply_delay_yields.
Qed.

(** The two effects that do not return a new array. *)
Lemma increase_volume_eq w a f :
  increase_volume a f w
  = Ok (a, set_buf w a (map (fun x => (x * f)%Q) (buf w a))).
Proof. done. Qed.

End Straight.

(** ** The catalogue: every effect computes its result *)

Section Catalogue.
Context `{NumericLibs}.

Lemma run_effect_yields_new e w a sr :
  returns_new_array e = true -> valid w a ->
  yields_new (run_effect e a sr w) w (effect_result e sr (buf w a) (rng w)).
Proof.
  intros He Hv. destruct e; simpl in *; try done.
  - by apply apply_delay_yields.
  - by apply apply_chorus_yields.
  - by apply pitch_shift_yields.
  - by apply change_speed_yields.
  - by apply apply_echo_yields.
  - by apply apply_reverb_yields.
  - by apply apply_girl_voice_yields.
  - by apply apply_distorted_voice_yields.
  - by apply apply_telephone_voice_yields.
  - by apply apply_haunted_voice_yields.
  - by apply apply_whisper_voice_yields.
  - by apply apply_radio_voice_yields.
  - by apply apply_echo_yields.
  - by apply apply_stuttering_voice_yields.
  - by apply apply_digital_glitch_voice_yields.
  - by apply apply_mystical_voice_yields.
  - by apply apply_transcendent_voice_yields.
Qed.

Lemma run_effect_yields e w a sr :
  valid w a ->
  yields (run_effect e a sr w) (effect_result e sr (buf w a) (rng w)).
Proof.
  intros Hv. destruct (returns_new_array e) eqn:He.
  - eapply yields_new_yields. by apply run_effect_yields_new.
  - destruct e; try done; simpl.
    + exists a, (set_buf w a (map (fun x => (x * volume_factor)%Q) (buf w a))).
      split; [done|]. split; [by apply valid_set_buf|].
      split; [by apply buf_set_buf_eq | done].
    + exists (np_flip a), w. split; [done|]. split; [done|].
      split; [apply buf_np_flip | done].
Qed.

(** An effect that draws no noise does not look at the generator. *)
Lemma effect_result_keeps_rng e sr b :
  draws_noise e = false ->
  exists r, forall g', effect_result e sr b g' = keeps_rng r g'.
Proof.
  intros He. destruct e; try done; simpl; eauto.
  - by exists (Ok (map (fun x => (x * volume_factor)%Q) b)).
  - by exists (Ok (reverse b)).
  - by exists (Ok (distorted_result b)).
Qed.

Lemma yields_same_outcome r r' F G :
  yields r F -> yields r' G ->
  (F ≫= fun p => Ok p.1) = (G ≫= fun p => Ok p.1) ->
  same_outcome r r'.
Proof.
  unfold yields, same_outcome.
  destruct F as [[out g]|e], G as [[out' g']|e']; simpl.
  - intros (o & w & -> & _ & Hb & _) (o' & w' & -> & _ & Hb' & _) [= Heq].
    congruence.
  - by intros _ _ ?.
  - by intros _ _ ?.
  - intros -> -> [= ->]. done.
Qed.

End Catalogue.

(** ** The stutter *)

Section Stutter.
Context `{NumericLibs}.










(** A segment length of zero: [range] refuses the step. *)
Lemma stutter_result_zero sr factor b :
  py_int (inject_Z sr * factor) = 0%Z ->
  stutter_result sr factor b = Raise ValueError.
Proof. intros Hs. unfold stutter_result. by rewrite Hs. Qed.

End Stutter.

(** * The properties of the specification, on the code *)

Section Properties.
Context `{NumericLibs}.

(** ** Buffers as inputs: what the effects do to the array they are given *)

(** Every effect of the catalogue but [increase_volume] and
    [apply_reversed_voice] leaves every array of the store as it was and
    returns an array that is not one of them. *)
Lemma effects_copy e w a sr out g :
  returns_new_array e = true -> valid w a ->
  effect_result e sr (buf w a) (rng w) = Ok (out, g) ->
  exists o w',
    run_effect e a sr w = Ok (o, w') /\ buf w' o = out
    /\ buf w' a = buf w a /\ base o <> base a.
Proof.
  intros He Hv Hr. pose proof (run_effect_yields_new e w a sr He Hv) as Hy.
  rewrite Hr in Hy. destruct (yields_new_frame _ _ _ _ Hy) as (o & w' & ? & ? & Hf).
  exists o, w'. destruct (Hf a Hv). done.
Qed.

(** C1, a defect of the code.  [increase_volume] does not treat its input as
    immutable: the array it returns is the very array it was given, and the
    samples of that array have been scaled in place; no new array is made.
    (Lemma [effects_copy]: the other effects leave their input alone.) *)
Theorem increase_volume_overwrites_input w a volume_factor :
  valid w a ->
  exists w',
    increase_volume a volume_factor w = Ok (a, w')
    /\ buf w' a = map (fun x => (x * volume_factor)%Q) (buf w a)
    /\ length (heap w') = length (heap w).
Proof.
  intros Hv. eexists. split; [apply increase_volume_eq|].
  split; [by apply buf_set_buf_eq|]. simpl. apply length_insert.
Qed.

(** C9.  Reversal is an involution: [apply_reversed_voice] returns the
    samples of its input in reverse order, as many as there were, and
    applied to its own result it returns the samples of the input, one for
    one. *)
Theorem apply_reversed_voice_involution w a :
  exists r rr,
    apply_reversed_voice a w = Ok (r, w)
    /\ buf w r = reverse (buf w a)
    /\ length (buf w r) = length (buf w a)
    /\ apply_reversed_voice r w = Ok (rr, w)
    /\ buf w rr = buf w a.
Proof.
  exists (np_flip a), (np_flip (np_flip a)).
  split; [done|]. split; [apply buf_np_flip|].
  split; [by rewrite buf_np_flip, length_reverse|]. split; [done|].
  by rewrite !buf_np_flip, reverse_involutive.
Qed.

(** ** The feedback delay *)

(** A negative number of delay samples: the loop indexes out of range. *)
Lemma apply_delay_negative_raises w a sr delay_time feedback :
  valid w a -> (delay_samples sr delay_time < 0)%Z ->
  apply_delay a sr delay_time feedback w = Raise IndexError.
Proof.
  intros Hv Hd. rewrite apply_delay_eq by done.
  by replace (delay_samples sr delay_time <? 0)%Z with true
    by (symmetry; by apply Z.ltb_lt).
Qed.


Lemma max_abs_nonneg b : (0 <= max_abs b)%Q.
Proof.
  induction b as [|x b IH]; simpl; [done|].
  eapply Qle_trans; [exact IH | apply Q.le_max_r].
Qed.

Lemma max_abs_bounds b : Forall (fun x => (Qabs x <= max_abs b)%Q) b.
Proof.
  induction b as [|x b IH]; simpl; constructor.
  - apply Q.le_max_l.
  - eapply Forall_impl; [exact IH|]. intros y Hy. simpl in Hy.
    eapply Qle_trans; [exact Hy | apply Q.le_max_r].
Qed.



(** ** The echo *)

Lemma apply_echo_negative_raises w a sr delay_factor decay :
  valid w a -> (delay_samples sr delay_factor < 0)%Z ->
  apply_echo a sr delay_factor decay w = Raise IndexError.
Proof.
  intros Hv Hd. rewrite apply_echo_eq by done.
  by replace (delay_samples sr delay_factor <? 0)%Z with true
    by (symmetry; by apply Z.ltb_lt).
Qed.


(** ** The chorus *)


(** ** Determinism *)

(** An effect that draws no noise leaves the generator where it was. *)
Lemma noise_free_keeps_generator e w a sr o w' :
  draws_noise e = false -> valid w a ->
  run_effect e a sr w = Ok (o, w') -> rng w' = rng w.
Proof.
  intros He Hv Hrun. pose proof (run_effect_yields e w a sr Hv) as Hy.
  destruct (effect_result_keeps_rng e sr (buf w a) He) as [r Hr].
  rewrite Hr, Hrun in Hy. destruct r as [l|x]; simpl in Hy; [|done].
  by destruct Hy as (? & ? & [= <- <-] & _ & _ & ?).
Qed.


(** ** The stutter *)

(** C4, a defect of the code.  When the stutter factor is so small that the
    segment length [int(sr * stutter_factor)] is 0, [apply_stuttering_voice]
    raises [ValueError] (the zero step of [range]) on every buffer, instead
    of returning one.  (Lemma [apply_girl_voice_short_raises]:
    [apply_girl_voice] raises as well when the buffer is shorter than its
    fades.) *)
Theorem apply_stuttering_voice_zero_segment_raises w a sr stutter_factor :
  valid w a -> py_int (inject_Z sr * stutter_factor) = 0%Z ->
  apply_stuttering_voice a sr stutter_factor w = Raise ValueError.
Proof.
  intros Hv Hs.
  pose proof (apply_stuttering_voice_yields w a sr stutter_factor Hv) as Hy.
  by rewrite stutter_result_zero in Hy.
Qed.


(** ** The fades of the girl voice *)

Lemma np_linspace_length start stop n : length (np_linspace start stop n) = n.
Proof.
  destruct n as [|[|n]]; [done | done |].
  unfold np_linspace. by rewrite length_insert, length_map, length_seq.
Qed.

Lemma broadcast_to_raises n r :
  length r <> n -> (1 < length r)%nat -> broadcast_to n r = Raise ValueError.
Proof.
  intros Hne Hlen. unfold broadcast_to.
  replace (length r =? n)%nat with false by (symmetry; by apply Nat.eqb_neq).
  destruct r as [|x [|y r]]; simpl in Hlen; (done || lia).
Qed.

(** When what the time stretch returns is shorter than a fade of two samples
    or more, the fade does not broadcast onto the slice: [ValueError]. *)
Lemma apply_girl_voice_short_raises w a sr l1 l2 :
  valid w a ->
  librosa_pitch_shift (buf w a) sr 12 = Ok l1 ->
  librosa_time_stretch l1 1.2 = Ok l2 ->
  (1 < py_int (0.03 * inject_Z sr))%Z ->
  (Z.of_nat (length l2) < py_int (0.03 * inject_Z sr))%Z ->
  apply_girl_voice a sr w = Raise ValueError.
Proof.
  intros Hv E1 E2 Hfade Hshort.
  pose proof (apply_girl_voice_yields w a sr Hv) as Hy.
  unfold girl_voice_result in Hy. rewrite E1 in Hy. simpl in Hy.
  rewrite E2 in Hy. simpl in Hy.
  set (fl := py_int (0.03 * inject_Z sr)) in *.
  unfold linspace_samples in Hy.
  replace (fl <? 0)%Z with false in Hy by (symmetry; apply Z.ltb_ge; lia).
  simpl in Hy.
  assert (imul_slice_samples l2 None (Some fl) (np_linspace 0 1 (Z.to_nat fl))
          = Raise ValueError) as E3.
  { unfold imul_slice_samples, slice_start, slice_stop, clamp_bound.
    replace (fl <? 0)%Z with false by (symmetry; apply Z.ltb_ge; lia).
    rewrite broadcast_to_raises; [done | |]; rewrite np_linspace_length; lia. }
  rewrite E3 in Hy. done.
Qed.

(** With a fade of no sample at all (a sample rate below 34), [-fade_length]
    is 0 and [girl_voice[-0:]] is the whole buffer: the empty fade does not
    broadcast onto it, and any buffer that is not empty raises. *)
Lemma apply_girl_voice_no_fade_raises w a sr l1 l2 :
  valid w a ->
  librosa_pitch_shift (buf w a) sr 12 = Ok l1 ->
  librosa_time_stretch l1 1.2 = Ok l2 ->
  py_int (0.03 * inject_Z sr) = 0%Z -> l2 <> [] ->
  apply_girl_voice a sr w = Raise ValueError.
Proof.
  intros Hv E1 E2 Hfade Hl2.
  pose proof (apply_girl_voice_yields w a sr Hv) as Hy.
  unfold girl_voice_result in Hy. rewrite E1 in Hy. simpl in Hy.
  rewrite E2 in Hy. simpl in Hy. rewrite Hfade in Hy. simpl in Hy.
  assert (clamp_bound (length l2) 0 = 0%nat) as Hc
    by (unfold clamp_bound; simpl; lia).
  assert (imul_slice_samples l2 None (Some 0%Z) [] = Ok l2) as E3.
  { unfold imul_slice_samples. simpl. rewrite Hc. simpl. by rewrite drop_0. }
  rewrite E3 in Hy. simpl in Hy. change (- 0)%Z with 0%Z in Hy.
  assert (imul_slice_samples l2 (Some 0%Z) None [] = Raise ValueError) as E4.
  { unfold imul_slice_samples. simpl. rewrite Hc, Nat.sub_0_r.
    destruct l2; done. }
  rewrite E4 in Hy. done.
Qed.

(** ** The haunted preset *)

(** C7.  The haunted preset is the reverb with amount 0.9 followed by the
    echo with delay 0.3 s and decay 0.8: when the reverb on the input raises,
    so does the preset; when it returns, the preset returns, sample for
    sample, what the echo returns on any array that holds the samples the
    reverb returned (and raises what the echo raises). *)
Theorem apply_haunted_voice_is_reverb_then_echo w a sr :
  valid w a ->
  match apply_reverb a sr 0.9 w with
  | Ok (r, w1) =>
      apply_haunted_voice a sr w = apply_echo r sr 0.3 0.8 w1
      /\ forall w2 a2, valid w2 a2 -> buf w2 a2 = buf w1 r ->
           same_outcome (apply_haunted_voice a sr w) (apply_echo a2 sr 0.3 0.8 w2)
  | Raise e => apply_haunted_voice a sr w = Raise e
  end.
Proof.
  intros Hv.
  pose proof (yields_new_yields _ _ _ (apply_reverb_yields w a sr 0.9 Hv)) as Hrev.
  pose proof (yields_new_yields _ _ _ (apply_haunted_voice_yields w a sr Hv)) as Hh.
  unfold haunted_result in Hh.
  destruct (apply_reverb a sr 0.9 w) as [[r w1]|e] eqn:Er.
  - split; [unfold apply_haunted_voice; by rewrite (bind_Ok _ _ _ _ _ Er)|].
    intros w2 a2 Hv2 Hb2.
    destruct (reverb_result 0.9 (buf w a)) as [l|e]; simpl in Hrev; [|done].
    destruct Hrev as (o & w' & [= <- <-] & _ & Hb & _).
    pose proof (yields_new_yields _ _ _ (apply_echo_yields w2 a2 sr 0.3 0.8 Hv2)) as He.
    eapply yields_same_outcome; [exact Hh | exact He |].
    rewrite Hb2, Hb. simpl. by destruct (echo_result sr 0.3 0.8 l).
  - unfold apply_haunted_voice. by rewrite (bind_Raise _ _ _ _ Er).
Qed.

End Properties.

Section Concrete.

(** The failing input of C1: on the buffer [1, 2] with factor 1.5 the call
    returns the array it was given, which now holds [1.5, 3]. *)
Lemma increase_volume_on_1_2 :
  increase_volume (NdArray 0 false) 1.5 (demo_world [[1; 2]%Q] 0)
  = Ok (NdArray 0 false, demo_world [[1.5; 3.0]%Q] 0).
Proof. reflexivity. Qed.

Lemma increase_volume_overwrites_input_witness :
  valid (demo_world [[1; 2]%Q] 0) (NdArray 0 false)
  /\ exists w',
       increase_volume (NdArray 0 false) 1.5 (demo_world [[1; 2]%Q] 0)
       = Ok (NdArray 0 false, w')
       /\ buf w' (NdArray 0 false) = map (fun x => (x * 1.5)%Q) [1; 2]%Q
       /\ length (heap w') = 1%nat.
Proof.
  split; [unfold valid; simpl; lia|].
  apply (increase_volume_overwrites_input (demo_world [[1; 2]%Q] 0)
           (NdArray 0 false) 1.5).
  unfold valid; simpl; lia.
Defined.

(** The failing input of C4: at 44100 samples per second with a stutter
    factor of 0.00001 the segment length is [int(0.441) = 0]. *)
Lemma apply_stuttering_voice_zero_segment_raises_witness :
  valid (demo_world [[1; 2; 3]%Q] 0) (NdArray 0 false)
  /\ py_int (inject_Z 44100 * 0.00001) = 0%Z
  /\ apply_stuttering_voice (NdArray 0 false) 44100 0.00001
       (demo_world [[1; 2; 3]%Q] 0) = Raise ValueError.
Proof.
  split; [unfold valid; simpl; lia|]. split; [reflexivity|].
  apply (apply_stuttering_voice_zero_segment_raises (demo_world [[1; 2; 3]%Q] 0)
           (NdArray 0 false) 44100 0.00001).
  - unfold valid; simpl; lia.
  - reflexivity.
Defined.


(** The two ways in which the code departs from that statement. *)
Lemma apply_delay_truncates_and_zero_fills :
  delay_samples 10 0.16 = 1%Z /\ py_round (0.16 * inject_Z 10) = 2%Z
  /\ apply_delay (NdArray 0 false) 10 0.16 1 (demo_world [[1; 1; 1]%Q] 0)
     = Ok (NdArray 1 false, demo_world [[1; 1; 1]; [0; 1; 2]]%Q 0).
Proof. repeat split. Qed.







(** The second store in that lemma is the one the first run leaves. *)
Lemma apply_whisper_voice_first_run :
  apply_whisper_voice (NdArray 0 false) (demo_world [[1%Q]] 0)
  = Ok (NdArray 1 false, demo_world [[1]; [0.200]; [0.00]]%Q 1).
Proof. reflexivity. Qed.




Lemma apply_haunted_voice_is_reverb_then_echo_witness :
  valid (demo_world [[1; 2; 3]%Q] 0) (NdArray 0 false)
  /\ match apply_reverb (NdArray 0 false) 10 0.9 (demo_world [[1; 2; 3]%Q] 0) with
     | Ok (r, w1) =>
         apply_haunted_voice (NdArray 0 false) 10 (demo_world [[1; 2; 3]%Q] 0)
         = apply_echo r 10 0.3 0.8 w1
         /\ forall w2 a2, valid w2 a2 -> buf w2 a2 = buf w1 r ->
              same_outcome
                (apply_haunted_voice (NdArray 0 false) 10 (demo_world [[1; 2; 3]%Q] 0))
                (apply_echo a2 10 0.3 0.8 w2)
     | Raise e =>
         apply_haunted_voice (NdArray 0 false) 10 (demo_world [[1; 2; 3]%Q] 0) = Raise e
     end.
Proof.
  split; [unfold valid; simpl; lia|].
  apply (apply_haunted_voice_is_reverb_then_echo
           (demo_world [[1; 2; 3]%Q] 0) (NdArray 0 false) 10).
  unfold valid; simpl; lia.
Defined.


End Concrete.

(** * Further properties of the effects *)

Section MoreDelay.
Context `{NumericLibs}.

(** ** The feedback delay *)






End MoreDelay.

Section MoreEcho.
Context `{NumericLibs}.

(** ** The echoes *)

Lemma Qabs_lookup_total_le (b : list Q) (i : nat) : (Qabs (b !!! i) <= max_abs b)%Q.
Proof.
  apply (lookup_total_Forall (fun x => (Qabs x <= max_abs b)%Q)).
  - apply max_abs_bounds.
  - apply max_abs_nonneg.
Qed.

Lemma echo_line_bounded d decay b :
  Forall (fun y => (Qabs y <= (1 + Qabs decay) * max_abs b)%Q) (echo_line d decay b).
Proof.
  apply Forall_lookup. intros j y Hy.
  assert (j < length b)%nat as Hj.
  { rewrite <- (echo_line_length d decay b). by eapply lookup_lt_Some. }
  apply list_lookup_total_correct in Hy. subst y. rewrite echo_line_lookup by done.
  pose proof (Qabs_lookup_total_le b j) as H1.
  pose proof (Qabs_lookup_total_le b (j - d)) as H2.
  pose proof (max_abs_nonneg b) as H0. pose proof (Qabs_nonneg decay) as Hd.
  case_decide.
  - eapply Qle_trans; [apply Qabs_triangle|]. rewrite Qabs_Qmult.
    assert (Qabs decay * Qabs (b !!! (j - d)%nat) <= Qabs decay * max_abs b)%Q.
    { rewrite !(Qmult_comm (Qabs decay)). by apply Qmult_le_compat_r. }
    lra.
  - assert (0 <= Qabs decay * max_abs b)%Q by (by apply Qmult_le_0_compat). lra.
Qed.




End MoreEcho.

Section MoreChorus.
Context `{NumericLibs}.

(** ** The chorus *)

(** [int] does not tell equal rationals apart. *)
Lemma py_int_Qeq (x y : Q) : (x == y)%Q -> py_int x = py_int y.
Proof.
  unfold Qeq, py_int. destruct x as [a b], y as [c d]. simpl. intros Heq.
  rewrite <- (Z.quot_mul_cancel_r a (Z.pos b) (Z.pos d)) by lia.
  rewrite <- (Z.quot_mul_cancel_r c (Z.pos d) (Z.pos b)) by lia.
  rewrite Heq. f_equal. lia.
Qed.

(** With a sample rate of 0 the modulator of the chorus is all nan, and
    [int] of its first entry raises [ValueError] on every buffer that has a
    sample. *)
Theorem apply_chorus_zero_rate_raises w a depth delay rate :
  valid w a -> buf w a <> [] ->
  apply_chorus a 0 depth delay rate w = Raise ValueError.
Proof.
  intros Hv Hne. rewrite apply_chorus_eq by done.
  destruct (buf w a); [done|]. done.
Qed.

(** With a depth of 0 the read offset of the chorus is [i] itself: the
    chorus adds every sample to itself and returns twice the input. *)
Theorem apply_chorus_zero_depth_doubles w a sr delay rate :
  valid w a -> sr <> 0%Z ->
  exists o w',
    apply_chorus a sr 0 delay rate w = Ok (o, w')
    /\ buf w' o = map (fun x => (x + x)%Q) (buf w a).
Proof.
  intros Hv Hsr. rewrite apply_chorus_eq by done.
  replace (sr =? 0)%Z with false by (symmetry; by apply Z.eqb_neq). simpl.
  exists (fresh w), (alloc w (chorus_line sr 0 rate (buf w a))).
  split; [done|]. rewrite buf_alloc_fresh.
  destruct (chorus_line_spec sr 0 rate (buf w a)) as [Hlen Hval].
  apply list_eq_same_length with (length (buf w a)); [by rewrite length_map|done|].
  intros i x y Hi Hx Hy. apply list_lookup_total_correct in Hx. subst x.
  rewrite list_lookup_fmap in Hy.
  rewrite (list_lookup_lookup_total_lt (buf w a) i) in Hy by done.
  simpl in Hy. injection Hy as <-. rewrite Hval by done.
  unfold chorus_delay_index, chorus_modulator.
  replace (sr =? 0)%Z with false by (symmetry; by apply Z.eqb_neq). simpl.
  assert (py_int (inject_Z (Z.of_nat i)
                  - np_sin (2 * np_pi * rate * inject_Z (Z.of_nat i) / inject_Z sr)
                    * (0 * inject_Z sr)) = Z.of_nat i) as ->.
  { rewrite (py_int_Qeq _ (inject_Z (Z.of_nat i))) by ring.
    unfold py_int, inject_Z. simpl. apply Z.quot_1_r. }
  replace ((0 <=? Z.of_nat i) && (Z.of_nat i <? Z.of_nat (length (buf w a))))%Z
    with true by (symmetry; apply andb_true_iff; split;
                  [apply Z.leb_le | apply Z.ltb_lt]; lia).
  by rewrite Nat2Z.id.
Qed.

(** No sample of the chorus is larger in magnitude than twice the largest
    magnitude of the input. *)
Theorem apply_chorus_bounded w a sr depth delay rate :
  valid w a -> sr <> 0%Z ->
  exists o w',
    apply_chorus a sr depth delay rate w = Ok (o, w')
    /\ Forall (fun y => (Qabs y <= 2 * max_abs (buf w a))%Q) (buf w' o).
Proof.
  intros Hv Hsr. rewrite apply_chorus_eq by done.
  replace (sr =? 0)%Z with false by (symmetry; by apply Z.eqb_neq). simpl.
  eexists _, _. split; [done|]. rewrite buf_alloc_fresh.
  destruct (chorus_line_spec sr depth rate (buf w a)) as [Hlen Hval].
  apply Forall_lookup. intros j y Hy.
  assert (j < length (buf w a))%nat as Hj.
  { rewrite <- Hlen. by eapply lookup_lt_Some. }
  apply list_lookup_total_correct in Hy. subst y. rewrite Hval by done.
  pose proof (max_abs_nonneg (buf w a)) as H0.
  pose proof (Qabs_lookup_total_le (buf w a) j) as H1.
  assert (Qabs (buf w a !!! j) <= 2 * max_abs (buf w a))%Q as Hone by lra.
  destruct (chorus_delay_index sr depth rate (Z.of_nat j)) as [k|]; [|done].
  destruct ((0 <=? k) && (k <? Z.of_nat (length (buf w a))))%Z; [|done].
  pose proof (Qabs_lookup_total_le (buf w a) (Z.to_nat k)) as H2.
  eapply Qle_trans; [apply Qabs_triangle|]. lra.
Qed.

End MoreChorus.

Section MoreStraight.
Context `{NumericLibs}.

(** A run that [yields_new] samples: the array returned, the generator, and
    the arrays that were there. *)
Lemma yields_new_run r w out g :
  yields_new r w (Ok (out, g)) ->
  exists o w', r = Ok (o, w') /\ buf w' o = out /\ rng w' = g
    /\ valid w' o /\ ~ valid w o
    /\ forall a, valid w a -> buf w' a = buf w a.
Proof.
  intros (o & w' & -> & Hv & Hb & Hg & [k Hk] & Ho).
  exists o, w'. repeat split; try done.
  - unfold valid. lia.
  - intros a Ha. unfold buf. rewrite Hk. by rewrite lookup_total_app_l.
Qed.

(** ** Clipping: the distortion and the reverb *)

Lemma np_clip1_range (x : Q) : (-1 <= np_clip1 (-1) 1 x <= 1)%Q.
Proof.
  unfold np_clip1.
  destruct (Q.max_spec x (-1)) as [[? Hm]|[? Hm]],
           (Q.min_spec (Qmax x (-1)) 1) as [[? Hn]|[? Hn]]; lra.
Qed.

Lemma np_clip1_cases (x : Q) :
  ((x <= -1 -> np_clip1 (-1) 1 x == -1)
   /\ (1 <= x -> np_clip1 (-1) 1 x == 1)
   /\ (-1 <= x <= 1 -> np_clip1 (-1) 1 x == x))%Q.
Proof.
  unfold np_clip1.
  destruct (Q.max_spec x (-1)) as [[? Hm]|[? Hm]],
           (Q.min_spec (Qmax x (-1)) 1) as [[? Hn]|[? Hn]];
    repeat split; intros; lra.
Qed.

Lemma within_clip (l : list Q) : within (-1) 1 (map (np_clip1 (-1) 1) l).
Proof. apply Forall_fmap, Forall_true. intros x. apply np_clip1_range. Qed.

(** [apply_distorted_voice] always returns, a new buffer of the length of
    its input, and it clips hard: a sample of magnitude 0.1 or more comes
    out as 1 or -1, a smaller one ten times as large. *)
Theorem apply_distorted_voice_hard_clips w a :
  valid w a ->
  exists o w',
    apply_distorted_voice a w = Ok (o, w')
    /\ length (buf w' o) = length (buf w a)
    /\ buf w' a = buf w a
    /\ forall (i : nat) (x : Q), buf w a !! i = Some x ->
         exists y, buf w' o !! i = Some y
           /\ ((x <= -0.1 -> y == -1) /\ (0.1 <= x -> y == 1)
               /\ (-0.1 <= x <= 0.1 -> y == 10 * x))%Q.
Proof.
  intros Hv.
  destruct (yields_new_run _ _ _ _ (apply_distorted_voice_yields w a Hv))
    as (o & w' & Hrun & Hb & _ & _ & _ & Hold).
  exists o, w'. split; [done|]. rewrite Hb, (Hold a Hv).
  split; [unfold distorted_result; by rewrite !length_map|]. split; [done|].
  intros i x Hx. exists (np_clip1 (-1) 1 (x * 10)). split.
  - unfold distorted_result. by rewrite !list_lookup_fmap, Hx.
  - destruct (np_clip1_cases (x * 10)) as (Hlo & Hhi & Hmid).
    repeat split; intros.
    + apply Hlo. lra.
    + apply Hhi. lra.
    + rewrite Hmid by lra. ring.
Qed.

(** [apply_reverb] raises what librosa's preemphasis raises; otherwise it
    returns a new buffer with as many samples as the preemphasis gave, every
    one of them in [-1, 1], whatever the reverb amount. *)
Theorem apply_reverb_in_range w a sr reverb_amount :
  valid w a ->
  match librosa_preemphasis (buf w a) with
  | Ok l =>
      exists o w',
        apply_reverb a sr reverb_amount w = Ok (o, w')
        /\ length (buf w' o) = length l
        /\ within (-1) 1 (buf w' o)
        /\ buf w' a = buf w a
  | Raise e => apply_reverb a sr reverb_amount w = Raise e
  end.
Proof.
  intros Hv. pose proof (apply_reverb_yields w a sr reverb_amount Hv) as Hy.
  unfold reverb_result in Hy. destruct (librosa_preemphasis (buf w a)) as [l|e].
  - destruct (yields_new_run _ _ _ _ Hy) as (o & w' & Hrun & Hb & _ & _ & _ & Hold).
    exists o, w'. split; [done|]. rewrite Hb, (Hold a Hv).
    split; [by rewrite !length_map|]. split; [apply within_clip | done].
  - exact Hy.
Qed.

(** ** The effects that draw noise *)

(** [apply_whisper_voice], when [np.random.normal(0, 0.02, n)] gives [n]
    samples: sample [i] of the result is [input[i] * 0.2 + noise[i]], the
    generator has moved on, and the input is as it was. *)
Theorem apply_whisper_voice_samples w a :
  valid w a ->
  let noise := np_random_normal 0 0.02 (length (buf w a)) (rng w) in
  length noise.1 = length (buf w a) ->
  exists o w',
    apply_whisper_voice a w = Ok (o, w')
    /\ buf w' o = zip_with (fun x n => (x * 0.2 + n)%Q) (buf w a) noise.1
    /\ rng w' = noise.2
    /\ buf w' a = buf w a.
Proof.
  intros Hv noise Hlen. pose proof (apply_whisper_voice_yields w a Hv) as Hy.
  unfold whisper_result, iadd_samples, broadcast_to in Hy. fold noise in Hy.
  rewrite length_map in Hy.
  replace (length noise.1 =? length (buf w a))%nat with true in Hy
    by (symmetry; by apply Nat.eqb_eq).
  destruct (yields_new_run _ _ _ _ Hy) as (o & w' & Hrun & Hb & Hg & _ & _ & Hold).
  exists o, w'. split; [done|]. rewrite Hb, (Hold a Hv).
  split; [|done]. by rewrite zip_with_fmap_l.
Qed.

(** [apply_digital_glitch_voice], when [np.random.normal(0, 1, n)] gives [n]
    samples: sample [i] of the result is [input[i] + 0.05 * noise[i]]. *)
Theorem apply_digital_glitch_voice_samples w a sr :
  valid w a ->
  let noise := np_random_normal 0 1 (length (buf w a)) (rng w) in
  length noise.1 = length (buf w a) ->
  exists o w',
    apply_digital_glitch_voice a sr w = Ok (o, w')
    /\ buf w' o = zip_with (fun x n => (x + 0.05 * n)%Q) (buf w a) noise.1
    /\ rng w' = noise.2
    /\ buf w' a = buf w a.
Proof.
  intros Hv noise Hlen. pose proof (apply_digital_glitch_voice_yields w a sr Hv) as Hy.
  unfold glitch_result, add_samples, broadcast2 in Hy. fold noise in Hy.
  rewrite length_map in Hy.
  replace (length (buf w a) =? length noise.1)%nat with true in Hy
    by (symmetry; by apply Nat.eqb_eq).
  destruct (yields_new_run _ _ _ _ Hy) as (o & w' & Hrun & Hb & Hg & _ & _ & Hold).
  exists o, w'. split; [done|]. rewrite Hb, (Hold a Hv).
  split; [|done]. by rewrite zip_with_fmap_r.
Qed.

(** ** The stutter *)

(** A negative segment length, from a negative sample rate or stutter
    factor: [range(0, n, segment_length)] is empty, and
    [apply_stuttering_voice] returns an empty buffer. *)
Theorem apply_stuttering_voice_negative_segment_is_empty w a sr stutter_factor :
  valid w a -> (py_int (inject_Z sr * stutter_factor) < 0)%Z ->
  exists o w',
    apply_stuttering_voice a sr stutter_factor w = Ok (o, w')
    /\ buf w' o = [].
Proof.
  intros Hv Hs. pose proof (apply_stuttering_voice_yields w a sr stutter_factor Hv) as Hy.
  unfold stutter_result, py_range_step in Hy.
  set (s := py_int (inject_Z sr * stutter_factor)) in *.
  replace (s =? 0)%Z with false in Hy by (symmetry; apply Z.eqb_neq; lia).
  replace (0 <? s)%Z with false in Hy by (symmetry; apply Z.ltb_ge; lia).
  assert (Z.to_nat ((0 - Z.of_nat (length (buf w a)) - s - 1) / - s) = 0%nat) as E.
  { assert ((0 - Z.of_nat (length (buf w a)) - s - 1) / - s <= 0)%Z; [|lia].
    destruct (decide (0 <= 0 - Z.of_nat (length (buf w a)) - s - 1)%Z).
    - rewrite Z.div_small by lia. done.
    - apply Z.lt_le_incl, Z.div_lt_upper_bound; lia. }
  rewrite E in Hy. simpl in Hy.
  destruct (yields_new_run _ _ _ _ Hy) as (o & w' & Hrun & Hb & _).
  by exists o, w'.
Qed.

(** ** Reversal returns a view *)

(** The array that [apply_reversed_voice] returns shares its samples with
    the input: scaling it in place with [increase_volume] scales the input. *)
Theorem apply_reversed_voice_shares_input w a volume_factor :
  valid w a ->
  exists r w',
    (reversed ← apply_reversed_voice a ; increase_volume reversed volume_factor) w
    = Ok (r, w')
    /\ buf w' a = map (fun x => (x * volume_factor)%Q) (buf w a)
    /\ buf w' r = reverse (buf w' a).
Proof.
  intros Hv.
  assert (apply_reversed_voice a w = Ok (np_flip a, w)) as E by done.
  rewrite (bind_Ok _ _ _ _ _ E), increase_volume_eq.
  eexists _, _. split; [done|].
  assert (valid w (np_flip a)) as Hv' by done.
  assert (buf (set_buf w (np_flip a) (map (fun x => (x * volume_factor)%Q)
                                          (buf w (np_flip a)))) a
          = map (fun x => (x * volume_factor)%Q) (buf w a)) as Ha.
  { unfold buf, set_buf, np_flip, valid in *. simpl.
    rewrite list_lookup_total_insert by done.
    destruct (rev a); simpl; rewrite decide_True by done.
    - by rewrite fmap_reverse.
    - by rewrite fmap_reverse, !reverse_involutive. }
  split; [done|]. rewrite Ha, buf_set_buf_eq, buf_np_flip by done.
  by rewrite fmap_reverse.
Qed.

End MoreStraight.

Section MoreGirlVoice.
Context `{NumericLibs}.

(** ** The fades of the girl voice, when they fit *)

Lemma imul_slice_head (l r : list Q) (F : Z) :
  (0 <= F)%Z -> (Z.to_nat F <= length l)%nat -> length r = Z.to_nat F ->
  imul_slice_samples l None (Some F) r
  = Ok (zip_with Qmult (take (Z.to_nat F) l) r ++ drop (Z.to_nat F) l).
Proof.
  intros HF Hl Hr. unfold imul_slice_samples, slice_start, slice_stop, clamp_bound.
  replace (F <? 0)%Z with false by (symmetry; apply Z.ltb_ge; lia).
  rewrite Nat.min_r, Nat.sub_0_r by lia. unfold broadcast_to.
  replace (length r =? Z.to_nat F)%nat with true by (symmetry; by apply Nat.eqb_eq).
  simpl. by rewrite drop_0.
Qed.

Lemma imul_slice_tail (l r : list Q) (F : Z) :
  (0 < F)%Z -> (Z.to_nat F <= length l)%nat -> length r = Z.to_nat F ->
  imul_slice_samples l (Some (- F)%Z) None r
  = Ok (take (length l - Z.to_nat F) l
        ++ zip_with Qmult (drop (length l - Z.to_nat F) l) r).
Proof.
  intros HF Hl Hr. unfold imul_slice_samples, slice_start, slice_stop, clamp_bound.
  replace (- F <? 0)%Z with true by (symmetry; apply Z.ltb_lt; lia).
  replace (Z.to_nat (Z.max 0 (- F + Z.of_nat (length l))))
    with (length l - Z.to_nat F)%nat by lia.
  replace (length l - (length l - Z.to_nat F))%nat with (Z.to_nat F) by lia.
  unfold broadcast_to.
  replace (length r =? Z.to_nat F)%nat with true by (symmetry; by apply Nat.eqb_eq).
  simpl. rewrite (take_ge (drop _ l)) by (rewrite length_drop; lia).
  rewrite (drop_ge l (_ + _)) by lia. by rewrite app_nil_r.
Qed.

Lemma fade_head_lookup (l r : list Q) (f i : nat) :
  (f <= length l)%nat -> length r = f -> (i < length l)%nat ->
  (zip_with Qmult (take f l) r ++ drop f l) !!! i
  = if decide (i < f)%nat then (l !!! i * r !!! i)%Q else l !!! i.
Proof.
  intros Hf Hr Hi. apply list_lookup_total_correct. case_decide.
  - rewrite lookup_app_l by (rewrite length_zip_with, length_take; lia).
    rewrite lookup_zip_with, lookup_take_lt by done.
    rewrite (list_lookup_lookup_total_lt l i) by done. simpl.
    rewrite (list_lookup_lookup_total_lt r i) by lia. done.
  - rewrite lookup_app_r by (rewrite length_zip_with, length_take; lia).
    rewrite length_zip_with, length_take, lookup_drop.
    rewrite <- (list_lookup_lookup_total_lt l i) by done. f_equal. lia.
Qed.

Lemma fade_tail_lookup (l r : list Q) (f i : nat) :
  (f <= length l)%nat -> length r = f -> (i < length l)%nat ->
  (take (length l - f) l ++ zip_with Qmult (drop (length l - f) l) r) !!! i
  = if decide (i < length l - f)%nat then l !!! i
    else (l !!! i * r !!! (i - (length l - f))%nat)%Q.
Proof.
  intros Hf Hr Hi. apply list_lookup_total_correct. case_decide.
  - rewrite lookup_app_l by (rewrite length_take; lia).
    rewrite lookup_take_lt by done. by apply list_lookup_lookup_total_lt.
  - rewrite lookup_app_r by (rewrite length_take; lia).
    rewrite length_take, Nat.min_l by lia.
    rewrite lookup_zip_with, lookup_drop.
    replace (length l - f + (i - (length l - f)))%nat with i by lia.
    rewrite (list_lookup_lookup_total_lt l i) by done. simpl.
    rewrite (list_lookup_lookup_total_lt r (i - (length l - f))) by lia. done.
Qed.

Lemma np_linspace_first (stop : Q) (n : nat) :
  (0 < n)%nat -> (np_linspace 0 stop n !!! 0%nat == 0)%Q.
Proof.
  intros Hn. destruct n as [|[|n]]; [lia | done |].
  unfold np_linspace. rewrite list_lookup_total_insert_ne by lia.
  simpl. ring.
Qed.

Lemma np_linspace_last (start stop : Q) (n : nat) :
  (1 < n)%nat -> np_linspace start stop n !!! (n - 1)%nat = stop.
Proof.
  intros Hn. destruct n as [|[|n]]; [lia | lia |].
  unfold np_linspace. apply list_lookup_total_insert_eq.
  rewrite length_map, length_seq. lia.
Qed.

(** [apply_girl_voice] when the fades fit: with a fade of at least one
    sample and at most as many as the time stretch returned, it returns a
    buffer of that length whose first sample is 0, whose samples between
    the two fades are those the time stretch returned, and whose last
    sample is 0 when the fade has two samples or more. *)
Theorem apply_girl_voice_fades w a sr l1 l2 :
  valid w a ->
  librosa_pitch_shift (buf w a) sr 12 = Ok l1 ->
  librosa_time_stretch l1 1.2 = Ok l2 ->
  let fade_length := py_int (0.03 * inject_Z sr) in
  (1 <= fade_length <= Z.of_nat (length l2))%Z ->
  exists o w',
    apply_girl_voice a sr w = Ok (o, w')
    /\ length (buf w' o) = length l2
    /\ buf w' a = buf w a
    /\ (buf w' o !!! 0%nat == 0)%Q
    /\ (forall i : nat,
          (fade_length <= Z.of_nat i < Z.of_nat (length l2) - fade_length)%Z ->
          buf w' o !!! i = l2 !!! i)
    /\ ((2 <= fade_length)%Z -> (buf w' o !!! (length l2 - 1)%nat == 0)%Q).
Proof.
  intros Hv E1 E2 F HF.
  pose proof (apply_girl_voice_yields w a sr Hv) as Hy.
  unfold girl_voice_result in Hy. rewrite E1 in Hy. simpl in Hy.
  rewrite E2 in Hy. simpl in Hy. fold F in Hy.
  unfold linspace_samples in Hy.
  replace (F <? 0)%Z with false in Hy by (symmetry; apply Z.ltb_ge; lia).
  simpl in Hy.
  set (f := Z.to_nat F) in *. set (n := length l2) in *.
  set (fade_in := np_linspace 0 1 f) in *. set (fade_out := np_linspace 1 0 f) in *.
  assert (Z.of_nat f = F /\ (1 <= f <= n)%nat) as [HfF Hfn] by (unfold f, n; lia).
  assert (length fade_in = f) as Hin by apply np_linspace_length.
  assert (length fade_out = f) as Hout by apply np_linspace_length.
  rewrite imul_slice_head in Hy by (fold f; lia). fold f in Hy. simpl in Hy.
  set (l3 := zip_with Qmult (take f l2) fade_in ++ drop f l2) in *.
  assert (length l3 = n) as Hl3.
  { unfold l3. rewrite length_app, length_zip_with, length_take, length_drop.
    fold n. lia. }
  rewrite imul_slice_tail in Hy by (fold f; lia). fold f in Hy. simpl in Hy.
  rewrite Hl3 in Hy.
  destruct (yields_new_run _ _ _ _ Hy) as (o & w' & Hrun & Hb & _ & _ & _ & Hold).
  exists o, w'. split; [done|]. rewrite Hb, (Hold a Hv).
  assert (forall i, (i < n)%nat ->
            l3 !!! i = if decide (i < f)%nat then (l2 !!! i * fade_in !!! i)%Q
                       else l2 !!! i) as Hl3i.
  { intros i Hi. unfold l3. apply fade_head_lookup; (done || lia). }
  assert (forall i, (i < n)%nat ->
            (take (n - f) l3 ++ zip_with Qmult (drop (n - f) l3) fade_out) !!! i
            = if decide (i < n - f)%nat then l3 !!! i
              else (l3 !!! i * fade_out !!! (i - (n - f))%nat)%Q) as Houti.
  { intros i Hi. rewrite <- Hl3. apply fade_tail_lookup; (done || lia). }
  assert (fade_in !!! 0%nat == 0)%Q as Hfirst by (apply np_linspace_first; lia).
  split; [|split; [done|split; [|split]]].
  - rewrite length_app, length_take, length_zip_with, length_drop. lia.
  - rewrite Houti, Hl3i by lia. rewrite (decide_True (P := (0 < f)%nat)) by lia.
    case_decide; rewrite Hfirst; ring.
  - intros i Hi. rewrite Houti, Hl3i by lia.
    rewrite (decide_True (P := (i < n - f)%nat)) by lia.
    by rewrite decide_False by lia.
  - intros Htwo. rewrite Houti by lia. rewrite decide_False by lia.
    replace (n - 1 - (n - f))%nat with (f - 1)%nat by lia.
    unfold fade_out. rewrite np_linspace_last by lia. ring.
Qed.

End MoreGirlVoice.

Section MorePresets.
Context `{NumericLibs} `{HarmonicLib}.

(** ** The presets *)

Lemma new_array_in_alloc w l : new_array_in w (fresh w) (alloc w l).
Proof.
  split; [apply valid_alloc_fresh|]. split; [by apply prefix_alloc|]. done.
Qed.

Lemma yields_new_returns r w (F : result (list Q)) (P : list Q -> Prop) :
  yields_new r w (keeps_rng F (rng w)) -> (forall l, F = Ok l -> P l) ->
  returns_new r w P.
Proof.
  intros Hy HP. destruct F as [l|e]; simpl in Hy.
  - destruct Hy as (o & w' & -> & Hv & Hb & Hg & Hpre & Ho). simpl.
    split; [done|]. rewrite Hb. by apply HP.
  - by rewrite Hy.
Qed.

Lemma returns_new_then (m : M ndarray) (k : ndarray -> M ndarray) w
    (P Q : list Q -> Prop) :
  returns_new (m w) w P ->
  (forall o w', valid w' o -> P (buf w' o) -> returns_new (k o w') w' Q) ->
  returns_new ((m ≫= k) w) w Q.
Proof.
  intros Hm Hk. destruct (m w) as [[o w1]|e] eqn:Em.
  - rewrite (bind_Ok _ _ _ _ _ Em). destruct Hm as [(Hv & Hpre & Ho & Hg) HP].
    specialize (Hk o w1 Hv HP). destruct (k o w1) as [[o2 w2]|e]; [|done].
    destruct Hk as [(Hv2 & Hpre2 & Ho2 & Hg2) HQ]. split; [|done].
    split; [done|]. split; [by etrans|]. split; [|congruence].
    apply prefix_length in Hpre. lia.
  - by rewrite (bind_Raise _ _ _ _ Em).
Qed.

Lemma returns_new_weaken r w (P Q : list Q -> Prop) :
  returns_new r w P -> (forall l, P l -> Q l) -> returns_new r w Q.
Proof. destruct r as [[o w']|e]; [|done]. intros [? ?] HPQ. split; auto. Qed.

Lemma returns_new_lift {A} (r : result A) (k : A -> M ndarray) w P :
  (forall x, r = Ok x -> returns_new (k x w) w P) ->
  returns_new ((lift r ≫= k) w) w P.
Proof.
  intros Hk. destruct r as [x|e].
  - assert (lift (Ok x) w = Ok (x, w)) as E by done.
    rewrite (bind_Ok _ _ _ _ _ E). by apply Hk.
  - assert (lift (Raise e : result A) w = Raise e) as E by done.
    by rewrite (bind_Raise _ _ _ _ E).
Qed.

Lemma library_call_returns f w a :
  valid w a -> returns_new (library_call f a w) w (fun _ => True).
Proof.
  intros Hv. eapply yields_new_returns; [by apply library_call_yields | done].
Qed.

Lemma pitch_shift_returns w a sr n :
  valid w a -> returns_new (pitch_shift a sr n w) w (fun _ => True).
Proof. intros Hv. by apply library_call_returns. Qed.

Lemma change_speed_returns w a rate :
  valid w a -> returns_new (change_speed a rate w) w (fun _ => True).
Proof. intros Hv. by apply library_call_returns. Qed.

Lemma np_mul_scalar_returns w a c :
  returns_new (np_mul_scalar a c w) w (fun _ => True).
Proof. split; [apply new_array_in_alloc | done]. Qed.

Lemma np_clip_returns w a :
  returns_new (np_clip a (-1) 1 w) w (within (-1) 1).
Proof.
  split; [apply new_array_in_alloc|]. rewrite buf_alloc_fresh. apply within_clip.
Qed.

Lemma apply_reverb_returns w a sr amt :
  valid w a -> returns_new (apply_reverb a sr amt w) w (within (-1) 1).
Proof.
  intros Hv. eapply yields_new_returns; [by apply apply_reverb_yields|].
  intros l. unfold reverb_result. destruct (librosa_preemphasis _); [|done].
  intros [= <-]. apply within_clip.
Qed.

Lemma apply_distorted_voice_returns w a :
  valid w a -> returns_new (apply_distorted_voice a w) w (within (-1) 1).
Proof.
  intros Hv. apply (yields_new_returns _ _ (Ok (distorted_result (buf w a)))).
  - by apply apply_distorted_voice_yields.
  - intros l [= <-]. apply within_clip.
Qed.

Lemma apply_chorus_returns w a sr depth delay rate :
  valid w a -> returns_new (apply_chorus a sr depth delay rate w) w (fun _ => True).
Proof.
  intros Hv. eapply yields_new_returns; [by apply apply_chorus_yields | done].
Qed.

Lemma max_abs_within (b : list Q) : within (-1) 1 b -> (max_abs b <= 1)%Q.
Proof.
  induction 1 as [|x b [Hlo Hhi] _ IH]; simpl; [done|].
  apply Q.max_lub; [|done]. apply Qabs_Qle_condition. split; lra.
Qed.

Lemma echo_of_within d decay b :
  (0 <= decay)%Q -> within (-1) 1 b ->
  Forall (fun y => (Qabs y <= 1 + decay)%Q) (echo_line d decay b).
Proof.
  intros Hd Hb. eapply Forall_impl; [apply echo_line_bounded|].
  intros y Hy. simpl in Hy. pose proof (max_abs_within b Hb) as Hone.
  pose proof (max_abs_nonneg b) as Hzero.
  rewrite (Qabs_pos decay) in Hy by done.
  assert (max_abs b * (1 + decay) <= 1 * (1 + decay))%Q as Hm
    by (apply Qmult_le_compat_r; lra).
  lra.
Qed.

Lemma apply_echo_returns w a sr df decay :
  valid w a -> returns_new (apply_echo a sr df decay w) w (fun _ => True).
Proof.
  intros Hv. eapply yields_new_returns; [by apply apply_echo_yields | done].
Qed.

Lemma apply_echo_of_within w a sr df decay :
  valid w a -> (0 <= decay)%Q -> within (-1) 1 (buf w a) ->
  returns_new (apply_echo a sr df decay w) w
    (Forall (fun y => (Qabs y <= 1 + decay)%Q)).
Proof.
  intros Hv Hd Hb. eapply yields_new_returns; [by apply apply_echo_yields|].
  intros l. unfold echo_result. destruct (_ <? 0)%Z; [done|].
  intros [= <-]. by apply echo_of_within.
Qed.

(** Every preset, step by step: what it returns is a new array, and the
    samples are those its last step leaves. *)
Lemma run_preset_returns p w a sr :
  valid w a -> returns_new (run_preset p a sr w) w (preset_samples p).
Proof.
  intros Hv.
  assert (forall r (P : list Q -> Prop),
            ends_clipped p = false -> echo_of_clipped p = None ->
            returns_new r w P -> returns_new r w (preset_samples p)) as Hany.
  { intros r P Hc He Hr. eapply returns_new_weaken; [exact Hr|].
    intros l _. split; [by rewrite Hc | by rewrite He]. }
  assert (forall r, echo_of_clipped p = None ->
            returns_new r w (within (-1) 1) ->
            returns_new r w (preset_samples p)) as Hclip.
  { intros r He Hr. eapply returns_new_weaken; [exact Hr|].
    intros l Hl. split; [done | by rewrite He]. }
  assert (forall r decay, ends_clipped p = false -> echo_of_clipped p = Some decay ->
            returns_new r w (Forall (fun y => (Qabs y <= 1 + decay)%Q)) ->
            returns_new r w (preset_samples p)) as Hecho.
  { intros r decay Hc He Hr. eapply returns_new_weaken; [exact Hr|].
    intros l Hl. split; [by rewrite Hc|]. intros d' Hd'.
    rewrite He in Hd'. by injection Hd' as <-. }
  destruct p; simpl.
  - eapply Hany; [done | done | by apply pitch_shift_returns].
  - eapply Hany; [done | done | by apply pitch_shift_returns].
  - eapply Hany; [done | done | by apply pitch_shift_returns].
  - eapply Hany; [done | done | by apply pitch_shift_returns].
  - (* slow motion *)
    eapply Hany; [done | done |]. unfold apply_slow_motion_voice.
    eapply returns_new_then; [by apply pitch_shift_returns|].
    intros o1 w1 Hv1 _. by apply change_speed_returns.
  - (* underwater *)
    eapply Hany; [done | done |]. unfold apply_underwater_voice.
    apply returns_new_lift. intros s _. by apply library_call_returns.
  - (* monster *)
    apply Hclip; [done|]. unfold apply_monster_voice.
    eapply returns_new_then; [by apply pitch_shift_returns|].
    intros o1 w1 Hv1 _. by apply apply_distorted_voice_returns.
  - (* megaphone *)
    apply Hclip; [done|]. unfold apply_megaphone_voice.
    apply returns_new_lift. intros s _.
    eapply returns_new_then; [by apply library_call_returns|].
    intros o1 w1 Hv1 _.
    eapply returns_new_then; [apply np_mul_scalar_returns|].
    intros o2 w2 Hv2 _. apply np_clip_returns.
  - (* space *)
    eapply Hecho; [done | done |]. unfold apply_space_voice.
    eapply returns_new_then; [by apply apply_reverb_returns|].
    intros o1 w1 Hv1 Hb1. by apply apply_echo_of_within.
  - (* deep *)
    apply Hclip; [done|]. unfold apply_deep_voice.
    eapply returns_new_then; [by apply pitch_shift_returns|].
    intros o1 w1 Hv1 _.
    eapply returns_new_then; [apply np_mul_scalar_returns|].
    intros o2 w2 Hv2 _. apply np_clip_returns.
  - (* broken robot *)
    eapply Hany; [done | done |]. unfold apply_broken_robot_voice.
    eapply returns_new_then; [by apply pitch_shift_returns|].
    intros o1 w1 Hv1 _.
    eapply returns_new_then; [apply np_mul_scalar_returns|].
    intros o2 w2 Hv2 _.
    eapply returns_new_then; [apply np_clip_returns|].
    intros o3 w3 Hv3 _. by apply change_speed_returns.
  - (* alien *)
    eapply Hany; [done | done |]. unfold apply_alien_voice.
    eapply returns_new_then; [by apply pitch_shift_returns|].
    intros o1 w1 Hv1 _. by apply change_speed_returns.
  - eapply Hany; [done | done | by apply change_speed_returns].
  - (* cyborg *)
    eapply Hany; [done | done |]. unfold apply_cyborg_voice.
    eapply returns_new_then; [by apply pitch_shift_returns|].
    intros o1 w1 Hv1 _. by apply change_speed_returns.
  - (* robot vocoder *)
    eapply Hany; [done | done |]. unfold apply_robot_voice_vocoder.
    eapply returns_new_then; [by apply library_call_returns|].
    intros o1 w1 Hv1 _. by apply pitch_shift_returns.
  - (* darth vader *)
    apply Hclip; [done|]. unfold apply_darth_vader_voice.
    eapply returns_new_then; [by apply pitch_shift_returns|].
    intros o1 w1 Hv1 _. by apply apply_reverb_returns.
  - (* ghostly whisper *)
    apply Hclip; [done|]. unfold apply_ghostly_whisper_voice.
    eapply returns_new_then; [by apply pitch_shift_returns|].
    intros o1 w1 Hv1 _. by apply apply_reverb_returns.
  - (* evil witch *)
    eapply Hany; [done | done |]. unfold apply_evil_witch_voice.
    eapply returns_new_then; [by apply pitch_shift_returns|].
    intros o1 w1 Hv1 _. by apply apply_echo_returns.
  - (* cyberpunk *)
    eapply Hecho; [done | done |]. unfold apply_cyberpunk_voice.
    eapply returns_new_then; [by apply pitch_shift_returns|].
    intros o1 w1 Hv1 _.
    eapply returns_new_then; [apply np_mul_scalar_returns|].
    intros o2 w2 Hv2 _.
    eapply returns_new_then; [apply np_clip_returns|].
    intros o3 w3 Hv3 Hb3. by apply apply_echo_of_within.
  - (* mad scientist *)
    eapply Hecho; [done | done |]. unfold apply_mad_scientist_voice.
    eapply returns_new_then; [by apply pitch_shift_returns|].
    intros o1 w1 Hv1 _.
    eapply returns_new_then; [apply np_mul_scalar_returns|].
    intros o2 w2 Hv2 _.
    eapply returns_new_then; [apply np_clip_returns|].
    intros o3 w3 Hv3 Hb3. by apply apply_echo_of_within.
  - (* galactic *)
    apply Hclip; [done|]. unfold apply_galactic_voice.
    eapply returns_new_then; [by apply pitch_shift_returns|].
    intros o1 w1 Hv1 _.
    eapply returns_new_then; [by apply apply_echo_returns|].
    intros o2 w2 Hv2 _. by apply apply_reverb_returns.
  - (* celestial *)
    apply Hclip; [done|]. unfold apply_celestial_voice.
    eapply returns_new_then; [by apply apply_chorus_returns|].
    intros o1 w1 Hv1 _. by apply apply_reverb_returns.
  - (* cosmic *)
    apply Hclip; [done|]. unfold apply_cosmic_voice.
    eapply returns_new_then; [by apply pitch_shift_returns|].
    intros o1 w1 Hv1 _.
    eapply returns_new_then; [by apply apply_echo_returns|].
    intros o2 w2 Hv2 _. by apply apply_reverb_returns.
  - (* enchanted *)
    apply Hclip; [done|]. unfold apply_enchanted_voice.
    eapply returns_new_then; [by apply pitch_shift_returns|].
    intros o1 w1 Hv1 _.
    eapply returns_new_then; [by apply apply_chorus_returns|].
    intros o2 w2 Hv2 _. by apply apply_reverb_returns.
  - apply Hclip; [done|]. by apply apply_reverb_returns.
Qed.

(** No preset touches an array that was there, returns one of them, or
    draws from the random generator: when a preset returns, every array of
    the store holds the samples it held, the array returned is a new one,
    and the generator is in the state it was in. *)
Theorem presets_return_new_array p w a sr o w' :
  valid w a -> run_preset p a sr w = Ok (o, w') ->
  valid w' o /\ ~ valid w o /\ rng w' = rng w
  /\ forall a0, valid w a0 -> buf w' a0 = buf w a0.
Proof.
  intros Hv Hrun. pose proof (run_preset_returns p w a sr Hv) as Hr.
  rewrite Hrun in Hr. destruct Hr as [(Hvo & [k Hk] & Ho & Hg) _].
  split; [done|]. split; [unfold valid; lia|]. split; [done|].
  intros a0 Ha0. unfold buf. rewrite Hk. by rewrite lookup_total_app_l.
Qed.

(** The presets that end with a clip (their own, or that of the reverb or
    of the distortion) return samples in [-1, 1]. *)
Theorem clipped_presets_in_range p w a sr o w' :
  ends_clipped p = true -> valid w a ->
  run_preset p a sr w = Ok (o, w') ->
  within (-1) 1 (buf w' o).
Proof.
  intros Hp Hv Hrun. pose proof (run_preset_returns p w a sr Hv) as Hr.
  rewrite Hrun in Hr. destruct Hr as [_ [Hc _]]. by apply Hc.
Qed.

(** The presets that put an echo after a clip (space, cyberpunk, mad
    scientist) can leave [-1, 1], but no sample is larger in magnitude than
    1 plus the decay of the echo. *)
Theorem echo_presets_bounded p decay w a sr o w' :
  echo_of_clipped p = Some decay -> valid w a ->
  run_preset p a sr w = Ok (o, w') ->
  Forall (fun y => (Qabs y <= 1 + decay)%Q) (buf w' o).
Proof.
  intros Hp Hv Hrun. pose proof (run_preset_returns p w a sr Hv) as Hr.
  rewrite Hrun in Hr. destruct Hr as [_ [_ He]]. by apply He.
Qed.

(** The haunted preset, an echo of decay 0.8 after the reverb: when the
    preemphasis returns and the sample rate is not negative it returns, as
    many samples as the preemphasis gave, none larger in magnitude than
    1.8. *)
Theorem apply_haunted_voice_bounded w a sr l :
  valid w a -> (0 <= delay_samples sr 0.3)%Z ->
  librosa_preemphasis (buf w a) = Ok l ->
  exists o w',
    apply_haunted_voice a sr w = Ok (o, w')
    /\ length (buf w' o) = length l
    /\ Forall (fun y => (Qabs y <= 1.8)%Q) (buf w' o).
Proof.
  intros Hv Hd El. pose proof (apply_haunted_voice_yields w a sr Hv) as Hy.
  unfold haunted_result, reverb_result, echo_result in Hy. rewrite El in Hy.
  simpl in Hy.
  replace (delay_samples sr 0.3 <? 0)%Z with false in Hy
    by (symmetry; by apply Z.ltb_ge).
  destruct (yields_new_run _ _ _ _ Hy) as (o & w' & Hrun & Hb & _).
  exists o, w'. split; [done|]. rewrite Hb.
  split; [by rewrite echo_line_length, !length_map|].
  eapply Forall_impl; [apply (echo_of_within _ 0.8); [done | apply within_clip]|].
  intros y Hy'. simpl in Hy'. eapply Qle_trans; [exact Hy'|]. done.
Qed.

End MorePresets.

Section MoreFlanger.
Context `{NumericLibs}.

(** ** The flanger *)

Lemma py_int_between (x : Q) (D : Z) :
  (0 <= x)%Q -> (x <= inject_Z D)%Q -> (0 <= py_int x <= D)%Z.
Proof.
  destruct x as [p q]. unfold Qle, py_int, inject_Z. simpl. intros Hp Hq.
  rewrite Z.quot_div_nonneg by lia. split.
  - apply Z.div_pos; lia.
  - apply Z.div_le_upper_bound; lia.
Qed.

Lemma py_int_nonneg (x : Q) : (0 <= x)%Q -> (0 <= py_int x)%Z.
Proof.
  destruct x as [p q]. unfold Qle, py_int. simpl. intros Hp.
  rewrite Z.quot_div_nonneg by lia. apply Z.div_pos; lia.
Qed.

(** The delay of the flanger at index [i], for a sine in [-1, 1]: between
    0 and [max_delay]. *)
Lemma flanger_delay_between (s : Q) (D : Z) :
  (-1 <= s <= 1)%Q -> (0 <= D)%Z ->
  (0 <= py_int (0.5 * (1 + s) * inject_Z D) <= D)%Z.
Proof.
  intros Hs HD. assert (0 <= inject_Z D)%Q as HD'.
  { unfold Qle, inject_Z. simpl. lia. }
  apply py_int_between.
  - apply Qmult_le_0_compat; [lra | done].
  - assert (0.5 * (1 + s) * inject_Z D <= 1 * inject_Z D)%Q
      by (apply Qmult_le_compat_r; [lra | done]).
    lra.
Qed.

(** With a sample rate of 0 the modulation of the flanger is all nan, and
    [int] of its first entry raises [ValueError] on every buffer that has a
    sample. *)
Theorem apply_flanger_voice_zero_rate_raises w a :
  valid w a -> buf w a <> [] ->
  apply_flanger_voice a 0 w = Raise ValueError.
Proof.
  intros Hv Hne. unfold apply_flanger_voice.
  assert (np_copy a w = Ok (fresh w, alloc w (buf w a))) as E0 by done.
  rewrite (bind_Ok _ _ _ _ _ E0).
  assert (len a (alloc w (buf w a))
          = Ok (Z.of_nat (length (buf w a)), alloc w (buf w a))) as E1.
  { rewrite len_eq, buf_alloc_old by done. done. }
  rewrite (bind_Ok _ _ _ _ _ E1).
  change (py_int (0.003 * inject_Z 0)) with 0%Z.
  apply bind_Raise. destruct (buf w a) as [|x b]; [done|].
  unfold py_range. rewrite Nat2Z.id.
  replace (Z.to_nat (Z.of_nat (length (x :: b)) - 0)) with (S (length b))
    by (simpl; lia).
  simpl. apply bind_Raise. done.
Qed.

(** The flanger at a positive sample rate, for a sine with values in
    [-1, 1].  [apply_flanger_voice] returns a new buffer of the length of
    its input; the samples before [max_delay = int(0.003 * sr)] are those of
    the input, and sample [i] from there on is
    [input[i] + 0.5 * input[i - delay]], where
    [delay = int(modulation[i] * max_delay)] lies between 0 and
    [max_delay]. *)
Theorem apply_flanger_voice_samples w a sr :
  valid w a -> (0 < sr)%Z -> (forall x, (-1 <= np_sin x <= 1)%Q) ->
  let max_delay := py_int (0.003 * inject_Z sr) in
  exists o w',
    apply_flanger_voice a sr w = Ok (o, w')
    /\ length (buf w' o) = length (buf w a)
    /\ buf w' a = buf w a
    /\ forall (i : nat) (x : Q), buf w a !! i = Some x ->
         let modulation :=
           (0.5 * (1 + np_sin (2 * np_pi * 0.25 * inject_Z (Z.of_nat i)
                               / inject_Z sr)))%Q in
         let delay := py_int (modulation * inject_Z max_delay) in
         (0 <= delay <= max_delay)%Z
         /\ buf w' o !! i
            = Some (if (Z.of_nat i <? max_delay)%Z then x
                    else (x + 0.5 * buf w a !!! Z.to_nat (Z.of_nat i - delay))%Q).
Proof.
  intros Hv Hsr Hsin D. unfold apply_flanger_voice. fold D. set (b := buf w a).
  assert (0 <= D)%Z as HD.
  { apply py_int_nonneg. apply Qmult_le_0_compat; [done|].
    unfold Qle, inject_Z. simpl. lia. }
  pose (delay := fun i : nat =>
    py_int (0.5 * (1 + np_sin (2 * np_pi * 0.25 * inject_Z (Z.of_nat i)
                               / inject_Z sr)) * inject_Z D)).
  assert (forall i, (0 <= delay i <= D)%Z) as Hdelay.
  { intros i. unfold delay. by apply flanger_delay_between. }
  pose (g := fun (i : nat) (x : Q) =>
    (x + 0.5 * b !!! Z.to_nat (Z.of_nat i - delay i))%Q).
  assert (np_copy a w = Ok (fresh w, alloc w b)) as E0 by done.
  rewrite (bind_Ok _ _ _ _ _ E0).
  assert (len a (alloc w b) = Ok (Z.of_nat (length b), alloc w b)) as E1.
  { rewrite len_eq, buf_alloc_old by done. done. }
  rewrite (bind_Ok _ _ _ _ _ E1).
  rewrite py_range_nat by done. rewrite Nat2Z.id.
  destruct (for_foldl (fun out => alloc w out) (fun out => length out = length b)
              (pointwise_step g)
              (fun i : Z =>
                 match norm_index (length b) i with
                 | None => raise IndexError
                 | Some k =>
                     match flanger_modulation sr (Z.of_nat k) with
                     | None => raise ValueError
                     | Some m =>
                         let delay := py_int (m * inject_Z D) in
                         x ← getitem (fresh w) i ;
                         y ← getitem a (i - delay)%Z ;
                         setitem (fresh w) i (x + 0.5 * y)%Q
                     end
                 end)
              (seq (Z.to_nat D) (length b - Z.to_nat D))) with (s := b)
    as [Hrun _].
  - intros out i Hout Hi. apply elem_of_seq in Hi.
    split; [|unfold pointwise_step; by rewrite length_insert].
    rewrite norm_index_nat by lia. unfold flanger_modulation.
    replace (sr =? 0)%Z with false by (symmetry; apply Z.eqb_neq; lia).
    cbv zeta. fold (delay i). specialize (Hdelay i).
    assert (i < length out)%nat as Hio by lia.
    rewrite (bind_Ok _ _ _ _ _ (getitem_alloc_fresh w out i Hio)).
    rewrite <- (Z2Nat.id (Z.of_nat i - delay i)) by lia.
    assert (Z.to_nat (Z.of_nat i - delay i) < length (buf w a))%nat as Hk
      by (fold b; lia).
    rewrite (bind_Ok _ _ _ _ _ (getitem_alloc_old w a out _ Hv Hk)).
    rewrite setitem_alloc_fresh by lia. done.
  - done.
  - rewrite (bind_Ok _ _ _ _ _ Hrun).
    destruct (foldl_pointwise g b (Z.to_nat D) (length b - Z.to_nat D))
      as [Hlen Hval].
    eexists _, _. split; [done|]. rewrite buf_alloc_fresh, buf_alloc_old by done.
    split; [done|]. split; [done|]. intros i x Hx. cbv zeta. fold (delay i).
    split; [apply Hdelay|].
    assert (i < length b)%nat as Hi by (by eapply lookup_lt_Some).
    rewrite (list_lookup_lookup_total_lt _ i) by (by rewrite Hlen).
    rewrite Hval by done. apply list_lookup_total_correct in Hx. subst x.
    f_equal. destruct (Z.of_nat i <? D)%Z eqn:HiD.
    + apply Z.ltb_lt in HiD. by rewrite decide_False by lia.
    + apply Z.ltb_ge in HiD. by rewrite decide_True by lia.
Qed.

End MoreFlanger.

Section MoreCatalogue.
Context `{NumericLibs}.

(** ** The catalogue of the effects *)

(** Every effect of the catalogue but [increase_volume] and
    [apply_reversed_voice] works on a copy: when it returns, every array of
    the store, its input among them, holds the samples it held, and the
    array returned is a new one. *)
Theorem effects_leave_arrays_untouched e w a sr o w' :
  returns_new_array e = true -> valid w a ->
  run_effect e a sr w = Ok (o, w') ->
  valid w' o /\ ~ valid w o
  /\ forall a0, valid w a0 -> buf w' a0 = buf w a0.
Proof.
  intros He Hv Hrun. pose proof (run_effect_yields_new e w a sr He Hv) as Hy.
  destruct (effect_result e sr (buf w a) (rng w)) as [[out g]|x].
  - destruct (yields_new_run _ _ _ _ Hy) as (o2 & w2 & Hrun2 & _ & _ & ? & ? & ?).
    rewrite Hrun in Hrun2. by injection Hrun2 as <- <-.
  - simpl in Hy. rewrite Hrun in Hy. done.
Qed.

(** The script at the end of the file calls [increase_volume] on the array
    it loaded and then the other effects on that same array.  An effect run
    after [increase_volume] works on the scaled samples: it has the outcome
    it has on an array that holds [input[i] * volume_factor]. *)
Theorem effect_after_increase_volume_sees_scaled_input e sr volume_factor w a w2 a2 :
  valid w a -> valid w2 a2 ->
  buf w2 a2 = map (fun x => (x * volume_factor)%Q) (buf w a) ->
  rng w2 = rng w ->
  same_outcome
    ((louder ← increase_volume a volume_factor ; run_effect e a sr) w)
    (run_effect e a2 sr w2).
Proof.
  intros Hv Hv2 Hb Hg.
  rewrite (bind_Ok _ _ _ _ _ (increase_volume_eq w a volume_factor)).
  set (w1 := set_buf w a (map (fun x => (x * volume_factor)%Q) (buf w a))).
  assert (valid w1 a) as Hv1 by (by apply valid_set_buf).
  eapply yields_same_outcome;
    [by apply run_effect_yields | by apply run_effect_yields |].
  unfold w1. rewrite buf_set_buf_eq by done. rewrite Hb, Hg. done.
Qed.

End MoreCatalogue.

(** ** The properties above on concrete inputs *)

Section MoreConcrete.

Lemma apply_delay_negative_raises_witness :
  valid (demo_world [[1; 2; 3]%Q] 0) (NdArray 0 false)
  /\ (delay_samples 10 (-0.2) < 0)%Z
  /\ apply_delay (NdArray 0 false) 10 (-0.2) 0.5 (demo_world [[1; 2; 3]%Q] 0)
     = Raise IndexError.
Proof.
  split; [unfold valid; simpl; lia|]. split; [reflexivity|].
  apply (apply_delay_negative_raises (demo_world [[1; 2; 3]%Q] 0) (NdArray 0 false)
           10 (-0.2) 0.5).
  - unfold valid; simpl; lia.
  - reflexivity.
Defined.







Lemma apply_chorus_zero_rate_raises_witness :
  valid (demo_world [[1; 2; 3]%Q] 0) (NdArray 0 false)
  /\ buf (demo_world [[1; 2; 3]%Q] 0) (NdArray 0 false) <> []
  /\ apply_chorus (NdArray 0 false) 0 0.03 0.004 1.3 (demo_world [[1; 2; 3]%Q] 0)
     = Raise ValueError.
Proof.
  split; [unfold valid; simpl; lia|]. split; [discriminate|].
  apply (apply_chorus_zero_rate_raises (demo_world [[1; 2; 3]%Q] 0)
           (NdArray 0 false) 0.03 0.004 1.3).
  - unfold valid; simpl; lia.
  - discriminate.
Defined.

Lemma apply_chorus_zero_depth_doubles_witness :
  valid (demo_world [[1; 2; 3]%Q] 0) (NdArray 0 false)
  /\ 10%Z <> 0%Z
  /\ exists o w',
       apply_chorus (NdArray 0 false) 10 0 0.004 1.3 (demo_world [[1; 2; 3]%Q] 0)
       = Ok (o, w')
       /\ buf w' o = map (fun x => (x + x)%Q) [1; 2; 3]%Q.
Proof.
  split; [unfold valid; simpl; lia|]. split; [discriminate|].
  apply (apply_chorus_zero_depth_doubles (demo_world [[1; 2; 3]%Q] 0)
           (NdArray 0 false) 10 0.004 1.3).
  - unfold valid; simpl; lia.
  - discriminate.
Defined.

Lemma apply_chorus_bounded_witness :
  valid (demo_world [[1; -2; 3]%Q] 0) (NdArray 0 false)
  /\ 10%Z <> 0%Z
  /\ exists o w',
       apply_chorus (NdArray 0 false) 10 0.1 0.004 0.5 (demo_world [[1; -2; 3]%Q] 0)
       = Ok (o, w')
       /\ Forall (fun y => (Qabs y <= 2 * max_abs [1; -2; 3])%Q) (buf w' o).
Proof.
  split; [unfold valid; simpl; lia|]. split; [discriminate|].
  apply (apply_chorus_bounded (demo_world [[1; -2; 3]%Q] 0) (NdArray 0 false)
           10 0.1 0.004 0.5).
  - unfold valid; simpl; lia.
  - discriminate.
Defined.

Lemma apply_distorted_voice_hard_clips_witness :
  valid (demo_world [[0.05; 2; -3]%Q] 0) (NdArray 0 false)
  /\ exists o w',
       apply_distorted_voice (NdArray 0 false) (demo_world [[0.05; 2; -3]%Q] 0)
       = Ok (o, w')
       /\ length (buf w' o) = 3%nat
       /\ buf w' (NdArray 0 false) = [0.05; 2; -3]%Q
       /\ forall (i : nat) (x : Q), [0.05; 2; -3]%Q !! i = Some x ->
            exists y, buf w' o !! i = Some y
              /\ ((x <= -0.1 -> y == -1) /\ (0.1 <= x -> y == 1)
                  /\ (-0.1 <= x <= 0.1 -> y == 10 * x))%Q.
Proof.
  split; [unfold valid; simpl; lia|].
  apply (apply_distorted_voice_hard_clips (demo_world [[0.05; 2; -3]%Q] 0)
           (NdArray 0 false)).
  unfold valid; simpl; lia.
Defined.

Lemma apply_reverb_in_range_witness :
  valid (demo_world [[1; 2; 3]%Q] 0) (NdArray 0 false)
  /\ exists o w',
       apply_reverb (NdArray 0 false) 10 0.7 (demo_world [[1; 2; 3]%Q] 0)
       = Ok (o, w')
       /\ length (buf w' o) = 3%nat
       /\ within (-1) 1 (buf w' o)
       /\ buf w' (NdArray 0 false) = [1; 2; 3]%Q.
Proof.
  split; [unfold valid; simpl; lia|].
  apply (apply_reverb_in_range (demo_world [[1; 2; 3]%Q] 0) (NdArray 0 false)
           10 0.7).
  unfold valid; simpl; lia.
Defined.

Lemma apply_whisper_voice_samples_witness :
  valid (demo_world [[1; 2; 3]%Q] 4) (NdArray 0 false)
  /\ length (demo_normal 0 0.02 3 4).1 = 3%nat
  /\ exists o w',
       apply_whisper_voice (NdArray 0 false) (demo_world [[1; 2; 3]%Q] 4)
       = Ok (o, w')
       /\ buf w' o = zip_with (fun x n => (x * 0.2 + n)%Q) [1; 2; 3]%Q
                       (demo_normal 0 0.02 3 4).1
       /\ rng w' = (demo_normal 0 0.02 3 4).2
       /\ buf w' (NdArray 0 false) = [1; 2; 3]%Q.
Proof.
  split; [unfold valid; simpl; lia|]. split; [reflexivity|].
  apply (apply_whisper_voice_samples (demo_world [[1; 2; 3]%Q] 4) (NdArray 0 false)).
  - unfold valid; simpl; lia.
  - reflexivity.
Defined.

Lemma apply_digital_glitch_voice_samples_witness :
  valid (demo_world [[1; 2; 3]%Q] 4) (NdArray 0 false)
  /\ length (demo_normal 0 1 3 4).1 = 3%nat
  /\ exists o w',
       apply_digital_glitch_voice (NdArray 0 false) 10 (demo_world [[1; 2; 3]%Q] 4)
       = Ok (o, w')
       /\ buf w' o = zip_with (fun x n => (x + 0.05 * n)%Q) [1; 2; 3]%Q
                       (demo_normal 0 1 3 4).1
       /\ rng w' = (demo_normal 0 1 3 4).2
       /\ buf w' (NdArray 0 false) = [1; 2; 3]%Q.
Proof.
  split; [unfold valid; simpl; lia|]. split; [reflexivity|].
  apply (apply_digital_glitch_voice_samples (demo_world [[1; 2; 3]%Q] 4)
           (NdArray 0 false) 10).
  - unfold valid; simpl; lia.
  - reflexivity.
Defined.

Lemma apply_stuttering_voice_negative_segment_is_empty_witness :
  valid (demo_world [[1; 2; 3]%Q] 0) (NdArray 0 false)
  /\ (py_int (inject_Z (-10) * 0.5) < 0)%Z
  /\ exists o w',
       apply_stuttering_voice (NdArray 0 false) (-10) 0.5 (demo_world [[1; 2; 3]%Q] 0)
       = Ok (o, w')
       /\ buf w' o = [].
Proof.
  split; [unfold valid; simpl; lia|]. split; [reflexivity|].
  apply (apply_stuttering_voice_negative_segment_is_empty
           (demo_world [[1; 2; 3]%Q] 0) (NdArray 0 false) (-10) 0.5).
  - unfold valid; simpl; lia.
  - reflexivity.
Defined.

Lemma apply_reversed_voice_shares_input_witness :
  valid (demo_world [[1; 2; 3]%Q] 0) (NdArray 0 false)
  /\ exists r w',
       (reversed ← apply_reversed_voice (NdArray 0 false) ;
        increase_volume reversed 1.5) (demo_world [[1; 2; 3]%Q] 0)
       = Ok (r, w')
       /\ buf w' (NdArray 0 false) = map (fun x => (x * 1.5)%Q) [1; 2; 3]%Q
       /\ buf w' r = reverse (buf w' (NdArray 0 false)).
Proof.
  split; [unfold valid; simpl; lia|].
  apply (apply_reversed_voice_shares_input (demo_world [[1; 2; 3]%Q] 0)
           (NdArray 0 false) 1.5).
  unfold valid; simpl; lia.
Defined.

Lemma apply_girl_voice_fades_witness :
  valid (demo_world [[1; 2; 3; 4; 5; 6]%Q] 0) (NdArray 0 false)
  /\ @librosa_pitch_shift demo_libs [1; 2; 3; 4; 5; 6]%Q 100 12
     = Ok [1; 2; 3; 4; 5; 6]%Q
  /\ @librosa_time_stretch demo_libs [1; 2; 3; 4; 5; 6]%Q 1.2 = Ok [1; 2; 3; 4; 5]%Q
  /\ (1 <= py_int (0.03 * inject_Z 100) <= 5)%Z
  /\ exists o w',
       apply_girl_voice (NdArray 0 false) 100 (demo_world [[1; 2; 3; 4; 5; 6]%Q] 0)
       = Ok (o, w')
       /\ length (buf w' o) = 5%nat
       /\ buf w' (NdArray 0 false) = [1; 2; 3; 4; 5; 6]%Q
       /\ (buf w' o !!! 0%nat == 0)%Q
       /\ (forall i : nat,
             (py_int (0.03 * inject_Z 100) <= Z.of_nat i
              < 5 - py_int (0.03 * inject_Z 100))%Z ->
             buf w' o !!! i = [1; 2; 3; 4; 5]%Q !!! i)
       /\ ((2 <= py_int (0.03 * inject_Z 100))%Z -> (buf w' o !!! 4%nat == 0)%Q).
Proof.
  split; [unfold valid; simpl; lia|]. split; [reflexivity|].
  split; [reflexivity|]. split; [vm_compute; split; discriminate|].
  apply (apply_girl_voice_fades (demo_world [[1; 2; 3; 4; 5; 6]%Q] 0)
           (NdArray 0 false) 100 [1; 2; 3; 4; 5; 6]%Q [1; 2; 3; 4; 5]%Q).
  - unfold valid; simpl; lia.
  - reflexivity.
  - reflexivity.
  - vm_compute; split; discriminate.
Defined.

Lemma apply_girl_voice_no_fade_raises_witness :
  valid (demo_world [[1; 2; 3; 4; 5; 6]%Q] 0) (NdArray 0 false)
  /\ @librosa_pitch_shift demo_libs [1; 2; 3; 4; 5; 6]%Q 20 12
     = Ok [1; 2; 3; 4; 5; 6]%Q
  /\ @librosa_time_stretch demo_libs [1; 2; 3; 4; 5; 6]%Q 1.2 = Ok [1; 2; 3; 4; 5]%Q
  /\ py_int (0.03 * inject_Z 20) = 0%Z
  /\ [1; 2; 3; 4; 5]%Q <> []
  /\ apply_girl_voice (NdArray 0 false) 20 (demo_world [[1; 2; 3; 4; 5; 6]%Q] 0)
     = Raise ValueError.
Proof.
  split; [unfold valid; simpl; lia|]. split; [reflexivity|].
  split; [reflexivity|]. split; [reflexivity|]. split; [discriminate|].
  apply (apply_girl_voice_no_fade_raises (demo_world [[1; 2; 3; 4; 5; 6]%Q] 0)
           (NdArray 0 false) 20 [1; 2; 3; 4; 5; 6]%Q [1; 2; 3; 4; 5]%Q).
  - unfold valid; simpl; lia.
  - reflexivity.
  - reflexivity.
  - reflexivity.
  - discriminate.
Defined.

Lemma presets_return_new_array_witness :
  valid (demo_world [[1; 2; 3]%Q] 5) (NdArray 0 false)
  /\ @run_preset demo_libs demo_harmonic AlienVoice (NdArray 0 false) 10
       (demo_world [[1; 2; 3]%Q] 5)
     = Ok (NdArray 2 false,
           demo_world [[1; 2; 3]%Q; [1; 2; 3]%Q; [1; 1; 2; 3]%Q] 5)
  /\ valid (demo_world [[1; 2; 3]%Q; [1; 2; 3]%Q; [1; 1; 2; 3]%Q] 5) (NdArray 2 false)
  /\ ~ valid (demo_world [[1; 2; 3]%Q] 5) (NdArray 2 false)
  /\ rng (demo_world [[1; 2; 3]%Q; [1; 2; 3]%Q; [1; 1; 2; 3]%Q] 5)
     = rng (demo_world [[1; 2; 3]%Q] 5)
  /\ forall a0, valid (demo_world [[1; 2; 3]%Q] 5) a0 ->
       buf (demo_world [[1; 2; 3]%Q; [1; 2; 3]%Q; [1; 1; 2; 3]%Q] 5) a0
       = buf (demo_world [[1; 2; 3]%Q] 5) a0.
Proof.
  split; [unfold valid; simpl; lia|]. split; [reflexivity|].
  apply (@presets_return_new_array demo_libs demo_harmonic AlienVoice
           (demo_world [[1; 2; 3]%Q] 5) (NdArray 0 false) 10).
  - unfold valid; simpl; lia.
  - reflexivity.
Defined.

Lemma clipped_presets_in_range_witness :
  ends_clipped MonsterVoice = true
  /\ valid (demo_world [[0.05; 2; -3]%Q] 0) (NdArray 0 false)
  /\ @run_preset demo_libs demo_harmonic MonsterVoice (NdArray 0 false) 10
       (demo_world [[0.05; 2; -3]%Q] 0)
     = Ok (NdArray 3 false,
           demo_world [[0.05; 2; -3]%Q; [0.05; 2; -3]%Q; [0.50; 20; -30]%Q;
                       [0.50; 1; -1]%Q] 0)
  /\ within (-1) 1
       (buf (demo_world [[0.05; 2; -3]%Q; [0.05; 2; -3]%Q; [0.50; 20; -30]%Q;
                         [0.50; 1; -1]%Q] 0) (NdArray 3 false)).
Proof.
  split; [reflexivity|]. split; [unfold valid; simpl; lia|].
  split; [reflexivity|].
  apply (@clipped_presets_in_range demo_libs demo_harmonic MonsterVoice
           (demo_world [[0.05; 2; -3]%Q] 0) (NdArray 0 false) 10).
  - reflexivity.
  - unfold valid; simpl; lia.
  - reflexivity.
Defined.

Lemma echo_presets_bounded_witness :
  echo_of_clipped SpaceVoice = Some 0.6%Q
  /\ valid (demo_world [[1; 2; 3]%Q] 0) (NdArray 0 false)
  /\ @run_preset demo_libs demo_harmonic SpaceVoice (NdArray 0 false) 2
       (demo_world [[1; 2; 3]%Q] 0)
     = Ok (NdArray 4 false,
           demo_world [[1; 2; 3]%Q; [1.00; 1.03; 1.06]%Q; [0.900; 0.927; 0.954]%Q;
                       [0.900; 0.927; 0.954]%Q;
                       [0.900; 1.4670000; 1.5102000]%Q] 0)
  /\ Forall (fun y => (Qabs y <= 1 + 0.6)%Q)
       (buf (demo_world [[1; 2; 3]%Q; [1.00; 1.03; 1.06]%Q; [0.900; 0.927; 0.954]%Q;
                         [0.900; 0.927; 0.954]%Q;
                         [0.900; 1.4670000; 1.5102000]%Q] 0) (NdArray 4 false)).
Proof.
  split; [reflexivity|]. split; [unfold valid; simpl; lia|].
  split; [reflexivity|].
  apply (@echo_presets_bounded demo_libs demo_harmonic SpaceVoice 0.6
           (demo_world [[1; 2; 3]%Q] 0) (NdArray 0 false) 2).
  - reflexivity.
  - unfold valid; simpl; lia.
  - reflexivity.
Defined.

Lemma apply_haunted_voice_bounded_witness :
  valid (demo_world [[1; 2; 3]%Q] 0) (NdArray 0 false)
  /\ (0 <= delay_samples 5 0.3)%Z
  /\ @librosa_preemphasis demo_libs [1; 2; 3]%Q = Ok [1 - 0.97 * 0; 2 - 0.97 * 1; 3 - 0.97 * 2]%Q
  /\ exists o w',
       apply_haunted_voice (NdArray 0 false) 5 (demo_world [[1; 2; 3]%Q] 0)
       = Ok (o, w')
       /\ length (buf w' o) = 3%nat
       /\ Forall (fun y => (Qabs y <= 1.8)%Q) (buf w' o).
Proof.
  split; [unfold valid; simpl; lia|]. split; [vm_compute; discriminate|].
  split; [reflexivity|].
  apply (apply_haunted_voice_bounded (demo_world [[1; 2; 3]%Q] 0) (NdArray 0 false)
           5 [1 - 0.97 * 0; 2 - 0.97 * 1; 3 - 0.97 * 2]%Q).
  - unfold valid; simpl; lia.
  - vm_compute; discriminate.
  - reflexivity.
Defined.

Lemma apply_flanger_voice_zero_rate_raises_witness :
  valid (demo_world [[1; 2; 3]%Q] 0) (NdArray 0 false)
  /\ buf (demo_world [[1; 2; 3]%Q] 0) (NdArray 0 false) <> []
  /\ apply_flanger_voice (NdArray 0 false) 0 (demo_world [[1; 2; 3]%Q] 0)
     = Raise ValueError.
Proof.
  split; [unfold valid; simpl; lia|]. split; [discriminate|].
  apply (apply_flanger_voice_zero_rate_raises (demo_world [[1; 2; 3]%Q] 0)
           (NdArray 0 false)).
  - unfold valid; simpl; lia.
  - discriminate.
Defined.

Lemma apply_flanger_voice_samples_witness :
  valid (demo_bounded_world [[1; 2; 3; 4; 5]%Q] 0) (NdArray 0 false)
  /\ (0 < 1000)%Z
  /\ (forall x, (-1 <= @np_sin demo_bounded_libs x <= 1)%Q)
  /\ exists o w',
       apply_flanger_voice (NdArray 0 false) 1000
         (demo_bounded_world [[1; 2; 3; 4; 5]%Q] 0) = Ok (o, w')
       /\ length (buf w' o) = 5%nat
       /\ buf w' (NdArray 0 false) = [1; 2; 3; 4; 5]%Q
       /\ forall (i : nat) (x : Q), [1; 2; 3; 4; 5]%Q !! i = Some x ->
            let modulation :=
              (0.5 * (1 + @np_sin demo_bounded_libs
                            (2 * @np_pi demo_bounded_libs * 0.25
                             * inject_Z (Z.of_nat i) / inject_Z 1000)))%Q in
            let delay := py_int (modulation * inject_Z 3) in
            (0 <= delay <= 3)%Z
            /\ buf w' o !! i
               = Some (if (Z.of_nat i <? 3)%Z then x
                       else (x + 0.5 * [1; 2; 3; 4; 5]%Q
                                        !!! Z.to_nat (Z.of_nat i - delay))%Q).
Proof.
  split; [unfold valid; simpl; lia|]. split; [lia|].
  split; [intros x; apply np_clip1_range|].
  apply (apply_flanger_voice_samples (demo_bounded_world [[1; 2; 3; 4; 5]%Q] 0)
           (NdArray 0 false) 1000).
  - unfold valid; simpl; lia.
  - lia.
  - intros x. apply np_clip1_range.
Defined.

Lemma noise_free_keeps_generator_witness :
  draws_noise (Chorus 0.1 0.004 0.5) = false
  /\ valid (demo_world [[1; 2; 3]%Q] 7) (NdArray 0 false)
  /\ run_effect (Chorus 0.1 0.004 0.5) (NdArray 0 false) 10
       (demo_world [[1; 2; 3]%Q] 7)
     = Ok (NdArray 1 false, demo_world [[1; 2; 3]%Q; [2; 3; 5]%Q] 7)
  /\ rng (demo_world [[1; 2; 3]%Q; [2; 3; 5]%Q] 7) = rng (demo_world [[1; 2; 3]%Q] 7).
Proof.
  split; [reflexivity|]. split; [unfold valid; simpl; lia|].
  split; [reflexivity|].
  apply (noise_free_keeps_generator (Chorus 0.1 0.004 0.5)
           (demo_world [[1; 2; 3]%Q] 7) (NdArray 0 false) 10 (NdArray 1 false)).
  - reflexivity.
  - unfold valid; simpl; lia.
  - reflexivity.
Defined.

Lemma effects_leave_arrays_untouched_witness :
  returns_new_array (Echo 0.2 0.5) = true
  /\ valid (demo_world [[1; 2; 3]%Q] 0) (NdArray 0 false)
  /\ run_effect (Echo 0.2 0.5) (NdArray 0 false) 10 (demo_world [[1; 2; 3]%Q] 0)
     = Ok (NdArray 1 false, demo_world [[1; 2; 3]%Q; [1; 2; 3.5]%Q] 0)
  /\ valid (demo_world [[1; 2; 3]%Q; [1; 2; 3.5]%Q] 0) (NdArray 1 false)
  /\ ~ valid (demo_world [[1; 2; 3]%Q] 0) (NdArray 1 false)
  /\ forall a0, valid (demo_world [[1; 2; 3]%Q] 0) a0 ->
       buf (demo_world [[1; 2; 3]%Q; [1; 2; 3.5]%Q] 0) a0
       = buf (demo_world [[1; 2; 3]%Q] 0) a0.
Proof.
  split; [reflexivity|]. split; [unfold valid; simpl; lia|].
  split; [reflexivity|].
  apply (effects_leave_arrays_untouched (Echo 0.2 0.5)
           (demo_world [[1; 2; 3]%Q] 0) (NdArray 0 false) 10).
  - reflexivity.
  - unfold valid; simpl; lia.
  - reflexivity.
Defined.

Lemma effect_after_increase_volume_sees_scaled_input_witness :
  valid (demo_world [[1; 2; 3]%Q] 0) (NdArray 0 false)
  /\ valid (demo_world [[1.5; 3.0; 4.5]%Q] 0) (NdArray 0 false)
  /\ buf (demo_world [[1.5; 3.0; 4.5]%Q] 0) (NdArray 0 false)
     = map (fun x => (x * 1.5)%Q) (buf (demo_world [[1; 2; 3]%Q] 0) (NdArray 0 false))
  /\ rng (demo_world [[1.5; 3.0; 4.5]%Q] 0) = rng (demo_world [[1; 2; 3]%Q] 0)
  /\ same_outcome
       ((louder ← increase_volume (NdArray 0 false) 1.5 ;
         run_effect (Echo 0.2 0.5) (NdArray 0 false) 10) (demo_world [[1; 2; 3]%Q] 0))
       (run_effect (Echo 0.2 0.5) (NdArray 0 false) 10
          (demo_world [[1.5; 3.0; 4.5]%Q] 0)).
Proof.
  split; [unfold valid; simpl; lia|]. split; [unfold valid; simpl; lia|].
  split; [reflexivity|]. split; [reflexivity|].
  apply (effect_after_increase_volume_sees_scaled_input (Echo 0.2 0.5) 10 1.5
           (demo_world [[1; 2; 3]%Q] 0) (NdArray 0 false)
           (demo_world [[1.5; 3.0; 4.5]%Q] 0) (NdArray 0 false)).
  - unfold valid; simpl; lia.
  - unfold valid; simpl; lia.
  - reflexivity.
  - reflexivity.
Defined.

End MoreConcrete.
